(** * Hybrid search with ColBERT reranking (n8n code nodes)

    A shallow embedding of the code node "Hybrid Search with ColBERT
    Reranking" and the properties of its reranking pass, followed by the
    nodes that build the index it searches: create collection, generate
    dense, BM25 and ColBERT embeddings, insert document.

    JavaScript numbers are IEEE-754 binary64 values; they are modelled by
    [spec_float] with the binary64 parameters, so every arithmetic step of
    the node rounds exactly as the source does and every definition below
    runs inside Rocq. *)

From Stdlib Require Import ZArith String Bool Lia Floats List Permutation Sorted.
Import ListNotations.

Set Warnings "-inexact-float".

(** ** JavaScript numbers *)

Module JsNumber.

Definition number : Type := spec_float.

Definition NaN : number := S754_nan.
Definition neg_Infinity : number := S754_infinity true.
Definition zero : number := S754_zero false.

Definition add (x y : number) : number := SFadd prec emax x y.
Definition sub (x y : number) : number := SFsub prec emax x y.
Definition mul (x y : number) : number := SFmul prec emax x y.
Definition div (x y : number) : number := SFdiv prec emax x y.

(** [Math.sqrt] *)
Definition Math_sqrt (x : number) : number := SFsqrt prec emax x.

(** [x === y] on numbers: false on NaN, true on zeros of either sign. *)
Definition strict_eq (x y : number) : bool := SFeqb x y.

(** [x < y] on numbers. *)
Definition lt (x y : number) : bool := SFltb x y.

Definition is_nan (x : number) : bool :=
  match x with S754_nan => true | _ => false end.

(** [Math.max(a, b)]: NaN when either argument is NaN, [+0] above [-0],
    otherwise the larger argument. *)
Definition Math_max (a b : number) : number :=
  if is_nan a || is_nan b then NaN
  else match a, b with
       | S754_zero true, S754_zero false => b
       | _, _ => if lt a b then b else a
       end.

(** The number an array length converts to. *)
Definition of_nat (n : nat) : number :=
  binary_normalize prec emax (Z.of_nat n) 0 false.

(** The literals [0.4] and [0.6] of the source, as the doubles they denote. *)
Definition lit_0_4 : number := Eval vm_compute in Prim2SF 0.4%float.
Definition lit_0_6 : number := Eval vm_compute in Prim2SF 0.6%float.

(** The literals [3] and [5] of the source. *)
Definition lit_3 : number := Eval vm_compute in Prim2SF 3%float.
Definition lit_5 : number := Eval vm_compute in Prim2SF 5%float.

(** A number in a condition: [0], [-0] and NaN are falsy. *)
Definition truthy (x : number) : bool := negb (is_nan x || strict_eq x zero).

(** [x || y] on numbers. *)
Definition or_else (x y : number) : number := if truthy x then x else y.

(** [ToIntegerOrInfinity(x)]: NaN converts to [0], an infinity to itself,
    and a finite number [± m * 2^e] is truncated toward zero. *)
Inductive integer_or_infinity : Type :=
| Integer (z : Z)
| PlusInfinity
| MinusInfinity.

Definition ToIntegerOrInfinity (x : number) : integer_or_infinity :=
  match x with
  | S754_nan | S754_zero _ => Integer 0
  | S754_infinity false => PlusInfinity
  | S754_infinity true => MinusInfinity
  | S754_finite s m e => Integer (cond_Zopp s (Z.shiftl (Zpos m) e))
  end.

(** [Number.isFinite(x)] *)
Definition Number_isFinite (x : number) : bool :=
  match x with
  | S754_zero _ | S754_finite _ _ _ => true
  | _ => false
  end.

(** A finite number in the canonical form every double has. *)
Definition finite (x : number) : bool :=
  Number_isFinite x && SpecFloat.valid_binary prec emax x.

(** The exponent of a finite non-zero number [± m * 2^e] is within the
    range of the format. *)
Definition exponent_in_range (x : number) : Prop :=
  match x with
  | S754_finite _ _ e => (emin <= e)%Z
  | _ => True
  end.

(** A finite non-zero number [± m * 2^e] is at least [2^(k-1)] in absolute
    value: the bits of [m] end at position [k] or above. *)
Definition magnitude_at_least (k : Z) (x : number) : Prop :=
  match x with
  | S754_finite _ m e => (k <= Zpos (digits2_pos m) + e)%Z
  | _ => True
  end.

End JsNumber.

Import JsNumber.

Declare Scope js_scope.
Delimit Scope js_scope with js.
Infix "+" := add : js_scope.
Infix "-" := sub : js_scope.
Infix "*" := mul : js_scope.
Infix "/" := div : js_scope.
Infix "===" := strict_eq (at level 70) : js_scope.

(** ** The scoring function *)

Module Colbert.

Definition vector : Type := list number.

(** [v[i]] in an arithmetic position: reading past the end of an array
    gives [undefined], which converts to NaN. *)
Definition at_index (v : vector) (i : nat) : number := nth i v NaN.

(** The accumulators [dot], [qNorm], [dNorm] of the innermost loop. *)
Record acc : Type := { dot : number; qNorm : number; dNorm : number }.

Definition acc0 : acc := {| dot := zero; qNorm := zero; dNorm := zero |}.

(** One turn of [for (let i = 0; i < qv.length; i++)]. *)
Definition step (qv dv : vector) (a : acc) (i : nat) : acc :=
  {| dot := (dot a + at_index qv i * at_index dv i)%js;
     qNorm := (qNorm a + at_index qv i * at_index qv i)%js;
     dNorm := (dNorm a + at_index dv i * at_index dv i)%js |}.

Definition inner (qv dv : vector) : acc :=
  fold_left (step qv dv) (seq 0 (length qv)) acc0.

(** The value of [sim] for one pair of token vectors. *)
Definition sim (qv dv : vector) : number :=
  let a := inner qv dv in
  let denom := (Math_sqrt (qNorm a) * Math_sqrt (dNorm a))%js in
  if (denom === zero)%js then zero else (dot a / denom)%js.

(** The value of [maxSim] after [for (const dv of dVecs)]. *)
Definition maxSim (qv : vector) (dVecs : list vector) : number :=
  fold_left (fun m dv => Math_max m (sim qv dv)) dVecs neg_Infinity.

Definition colbertScore (qVecs dVecs : list vector) : number :=
  let total := fold_left (fun t qv => (t + maxSim qv dVecs)%js) qVecs zero in
  (total / of_nat (length qVecs))%js.

End Colbert.

Import Colbert.

(** ** The code node *)

Module Input.
(** [$input.item.json]: an absent field reads as [undefined]; [top_k],
    where present, is a number. *)
Record t : Type :=
  { query : string; collection_name : option string; top_k : option number }.
End Input.

Module Point.
(** A point of the index response: [{ id, score, payload }]. *)
Record payload_t : Type :=
  { text : option string; colbert_embedding : option (list vector) }.
Record t : Type := { id : string; score : number; payload : option payload_t }.
End Point.

Module Result.
Record t : Type :=
  { id : string;
    text : option string;
    hybrid_score : number;
    colbert_score : number;
    final_score : number }.
End Result.

Module Output.
Record t : Type :=
  { query : string;
    results : list Result.t;
    method : string;
    num_candidates : nat;
    num_results : nat }.
End Output.

Module Http.

Record sparse : Type := { indices : list Z; values : list number }.

(** A response body [{ embedding: ... }].  Responses are taken in the
    shape the backends answer with; a body without [embedding] is not
    covered by this model. *)
Record embedded (E : Type) : Type := { embedding : E }.
Arguments embedding {E} _.

(** The index response [{ result: { points: [...] } }], either level of
    which may be missing. *)
Record query_result : Type := { points : option (list Point.t) }.
Record search_data : Type := { result : option query_result }.

Inductive prefetch_query : Type :=
| dense_query (v : list number)
| sparse_query (s : sparse).

Record prefetch_t : Type :=
  { pf_query : prefetch_query; using_ : string; pf_limit : number }.

Record query_body : Type :=
  { fusion : string;
    prefetch : list prefetch_t;
    limit : number;
    with_payload : bool }.

(** The four [this.helpers.httpRequest] calls of the node, each indexed by
    the shape of the response the node reads from it. *)
Inductive call : Type -> Type :=
| ollama_embeddings (model prompt : string) : call (embedded (list number))
| bm25_embed (texts : string) : call (embedded sparse)
| colbert_embed (texts : string) : call (embedded (list vector))
| points_query (collectionName : string) (body : query_body) : call search_data.

Definition qdrantUrl : string := "http://qdrant:6333".

Definition url {R : Type} (c : call R) : string :=
  match c with
  | ollama_embeddings _ _ => "http://host.docker.internal:11434/api/embeddings"
  | bm25_embed _ => "http://fastembed-bm25:8000/embed/single"
  | colbert_embed _ => "http://fastembed-colbert:8000/embed/single"
  | points_query collectionName _ =>
      (qdrantUrl ++ "/collections/" ++ collectionName ++ "/points/query")%string
  end.

Inductive request : Type :=
| Request (R : Type) (c : call R).
Arguments Request {R} c.

End Http.

Import Http.

(** *** Asynchronous programs

    A program returns, throws, or awaits one request and continues with
    its response; the next request of a program is issued by the
    continuation, that is, after the awaited response has arrived. *)

(** What a program can fail with: [throw new Error(message)], the
    TypeError of reading a property of [undefined], or the error an awaited
    request rejects with. *)
Inductive error : Type :=
| Error (message : string)
| TypeError
| RequestError.

Inductive node (A : Type) : Type :=
| Return (a : A)
| Throw (e : error)
| Await (R : Type) (c : call R) (k : R -> node A).

Arguments Return {A} a.
Arguments Throw {A} e.
Arguments Await {A R} c k.

Notation "'let_await' x ':=' c 'in' k" := (Await c (fun x => k))
  (at level 10, x name, c at level 100, k at level 200).

(** What is observed of a run: requests going out and settling. *)
Inductive event : Type :=
| Sent (r : request)
| Resolved
| Rejected.

Inductive outcome (A : Type) : Type :=
| Returned (a : A)
| Thrown (e : error).

Arguments Returned {A} a.
Arguments Thrown {A} e.

(** The backends: what each request resolves to, [None] when it rejects. *)
Definition backends : Type := forall R : Type, call R -> option R.

Fixpoint run {A : Type} (env : backends) (p : node A) : list event * outcome A :=
  match p with
  | Return a => ([], Returned a)
  | Throw e => ([], Thrown e)
  | Await c k =>
      match env _ c with
      | Some r => let (tr, o) := run env (k r) in (Sent (Request c) :: Resolved :: tr, o)
      | None => ([Sent (Request c); Rejected], Thrown RequestError)
      end
  end.

(** *** Array methods *)

(** [Array.prototype.sort(cmp)]: a stable sort; [a] is moved behind [b]
    exactly when [cmp(a, b) > 0] (a NaN result counts as [0]).  For a
    consistent comparator the result of a stable sort does not depend on
    the algorithm; insertion from the right is the one written here. *)
Section Sort.
Context {A : Type}.
Variable cmp : A -> A -> number.

Definition goes_after (a b : A) : bool := lt zero (cmp a b).

Fixpoint insert (x : A) (l : list A) : list A :=
  match l with
  | [] => [x]
  | y :: l' => if goes_after x y then y :: insert x l' else x :: l
  end.

Definition Array_sort (l : list A) : list A := fold_right insert [] l.
End Sort.

(** [l.slice(0, end)]: [end] is converted with [ToIntegerOrInfinity]; a
    negative end counts from the end of the array. *)
Definition Array_slice0 {A : Type} (l : list A) (end_ : number) : list A :=
  let len := Z.of_nat (length l) in
  let final :=
    match ToIntegerOrInfinity end_ with
    | MinusInfinity => 0%Z
    | Integer relativeEnd =>
        if (relativeEnd <? 0)%Z then Z.max (len + relativeEnd) 0
        else Z.min relativeEnd len
    | PlusInfinity => len
    end in
  firstn (Z.to_nat final) l.

(** *** The node body *)

Definition collectionName (i : Input.t) : string :=
  match Input.collection_name i with
  | Some s => if String.eqb s "" then "hybrid_demo"%string else s
  | None => "hybrid_demo"%string
  end.

(** [top_k || 3]; an absent [top_k] is [undefined], which is falsy. *)
Definition topK (i : Input.t) : number :=
  match Input.top_k i with
  | Some k => or_else k lit_3
  | None => lit_3
  end.

Definition searchBody (queryDense : list number) (queryBm25 : sparse) (topK : number)
  : query_body :=
  {| fusion := "rrf";
     prefetch :=
       [ {| pf_query := dense_query queryDense; using_ := "dense";
            pf_limit := (topK * lit_5)%js |};
         {| pf_query :=
              sparse_query {| indices := indices queryBm25;
                              values := values queryBm25 |};
            using_ := "bm25"; pf_limit := (topK * lit_5)%js |} ];
     limit := (topK * lit_5)%js;
     with_payload := true |}.

Definition candidates (searchData : search_data) : list Point.t :=
  match result searchData with
  | Some r => match points r with Some ps => ps | None => [] end
  | None => []
  end.

(** [c.payload && c.payload.colbert_embedding] as a condition: an absent
    payload or embedding is falsy, an array (even an empty one) is truthy. *)
Definition has_colbert (c : Point.t) : bool :=
  match Point.payload c with
  | Some p => match Point.colbert_embedding p with Some _ => true | None => false end
  | None => false
  end.

(** [c.payload.colbert_embedding] and [c.payload.text], read only from
    candidates that passed the filter. *)
Definition stored_colbert (c : Point.t) : list vector :=
  match Point.payload c with
  | Some p => match Point.colbert_embedding p with Some d => d | None => [] end
  | None => []
  end.

Definition stored_text (c : Point.t) : option string :=
  match Point.payload c with Some p => Point.text p | None => None end.

Definition to_result (queryColbert : list vector) (c : Point.t) : Result.t :=
  let colbScore := colbertScore queryColbert (stored_colbert c) in
  {| Result.id := Point.id c;
     Result.text := stored_text c;
     Result.hybrid_score := Point.score c;
     Result.colbert_score := colbScore;
     Result.final_score := (Point.score c * lit_0_4 + colbScore * lit_0_6)%js |}.

Definition by_final_score (a b : Result.t) : number :=
  (Result.final_score b - Result.final_score a)%js.

Definition results (queryColbert : list vector) (candidates : list Point.t) (topK : number)
  : list Result.t :=
  Array_slice0
    (Array_sort by_final_score
       (map (to_result queryColbert) (filter has_colbert candidates)))
    topK.

Definition main (i : Input.t) : node Output.t :=
  let query := Input.query i in
  let collectionName := collectionName i in
  let topK := topK i in
  let_await denseData := ollama_embeddings "nomic-embed-text" query in
  let queryDense := embedding denseData in
  let_await bm25Data := bm25_embed query in
  let queryBm25 := embedding bm25Data in
  let_await colbertData := colbert_embed query in
  let queryColbert := embedding colbertData in
  let_await searchData :=
    points_query collectionName (searchBody queryDense queryBm25 topK) in
  let candidates := candidates searchData in
  let results := results queryColbert candidates topK in
  Return {| Output.query := query;
            Output.results := results;
            Output.method := "hybrid_with_colbert_reranking";
            Output.num_candidates := length candidates;
            Output.num_results := length results |}.

(** ** The scoring rule in the words of the specification

    MaxSim: the cosine similarity of every query token against every
    document token, the maximum over the document tokens, and the average
    of these maxima over the query tokens. *)

Module MaxSim.

Definition dot_product (q d : vector) : number :=
  fold_left (fun s p => (s + fst p * snd p)%js) (combine q d) zero.

Definition norm (v : vector) : number := Math_sqrt (dot_product v v).

Definition zero_norm (v : vector) : bool := (norm v === zero)%js.

(** Cosine similarity, [0] where the product of the norms vanishes. *)
Definition cosine (q d : vector) : number :=
  let denom := (norm q * norm d)%js in
  if (denom === zero)%js then zero else (dot_product q d / denom)%js.

(** Cosine similarity as the specification words it: [0] for any pairing
    that involves a zero-norm vector. *)
Definition cosine_as_worded (q d : vector) : number :=
  if zero_norm q || zero_norm d then zero
  else (dot_product q d / (norm q * norm d))%js.

(** [Math.max(...l)] *)
Definition maximum (l : list number) : number :=
  fold_left Math_max l neg_Infinity.

Definition sum (l : list number) : number := fold_left add l zero.

Definition average (l : list number) : number :=
  (sum l / of_nat (length l))%js.

Definition score (Q D : list vector) : number :=
  average (map (fun q => maximum (map (cosine q) D)) Q).

Definition score_as_worded (Q D : list vector) : number :=
  average (map (fun q => maximum (map (cosine_as_worded q) D)) Q).

(** Every vector of [V] has a finite norm. *)
Definition finite_norms (V : list vector) : Prop :=
  Forall (fun v => Number_isFinite (norm v) = true) V.

(** [m] is a greatest element of [l]. *)
Definition greatest (m : number) (l : list number) : Prop :=
  In m l /\ Forall (fun x => SFleb x m = true) l.

End MaxSim.

(** The three accumulators of the scoring loop advanced over paired
    components. *)
Definition paired (a : acc) (p : number * number) : acc :=
  {| dot := (dot a + fst p * snd p)%js;
     qNorm := (qNorm a + fst p * fst p)%js;
     dNorm := (dNorm a + snd p * snd p)%js |}.

(** *** The order the sort is meant to produce *)

Section SortOrder.
Context {A : Type} (key : A -> number).

(** [a] may stand before [b]: its key is not smaller. *)
Definition descending (a b : A) : Prop := SFleb (key b) (key a) = true.

Definition finite_key (a : A) : Prop := finite (key a) = true.

(** Elements whose key equals [s]. *)
Definition key_is (s : number) (a : A) : bool := (key a === s)%js.

End SortOrder.

(** *** Runs in which every request resolves *)

(** The events of a run in which all four requests resolve. *)
Definition full_trace (i : Input.t) (d : embedded (list number)) (b : embedded sparse)
  : list event :=
  [ Sent (Request (ollama_embeddings "nomic-embed-text" (Input.query i))); Resolved;
    Sent (Request (bm25_embed (Input.query i))); Resolved;
    Sent (Request (colbert_embed (Input.query i))); Resolved;
    Sent (Request (points_query (collectionName i)
                     (searchBody (embedding d) (embedding b) (topK i)))); Resolved ].

(** The item the node returns from the query vectors and the index response. *)
Definition output_of (i : Input.t) (c : embedded (list vector)) (sd : search_data)
  : Output.t :=
  {| Output.query := Input.query i;
     Output.results := results (embedding c) (candidates sd) (topK i);
     Output.method := "hybrid_with_colbert_reranking";
     Output.num_candidates := length (candidates sd);
     Output.num_results := length (results (embedding c) (candidates sd) (topK i)) |}.

(** All four requests resolve in [env]. *)
Definition resolves (env : backends) (i : Input.t)
  (d : embedded (list number)) (b : embedded sparse) (c : embedded (list vector))
  (sd : search_data) : Prop :=
  env _ (ollama_embeddings "nomic-embed-text" (Input.query i)) = Some d /\
  env _ (bm25_embed (Input.query i)) = Some b /\
  env _ (colbert_embed (Input.query i)) = Some c /\
  env _ (points_query (collectionName i)
           (searchBody (embedding d) (embedding b) (topK i))) = Some sd.

(** ** Sample data *)

Definition one : number := Eval vm_compute in Prim2SF 1%float.
Definition half : number := Eval vm_compute in Prim2SF 0.5%float.
Definition lit_0_85 : number := Eval vm_compute in Prim2SF 0.85%float.
Definition lit_0_92 : number := Eval vm_compute in Prim2SF 0.92%float.

(** The numbers [-1] and [15], and [1e200], whose square overflows. *)
Definition minus_one : number := Eval vm_compute in Prim2SF (-1)%float.
Definition fifteen : number := Eval vm_compute in Prim2SF 15%float.
Definition lit_1e200 : number := Eval vm_compute in Prim2SF 1e200%float.

(** A [top_k] whose fivefold is not a double, and the double nearest to it. *)
Definition lit_3602879701896397 : number :=
  Eval vm_compute in Prim2SF 3602879701896397%float.
Definition lit_18014398509481984 : number :=
  Eval vm_compute in Prim2SF 18014398509481984%float.

(** Query token vectors [[1,0],[0,1]]. *)
Definition sample_query_vectors : list vector := [[one; zero]; [zero; one]].

Definition sample_point (id : string) (score : number) (e : option (list vector))
  : Point.t :=
  {| Point.id := id; Point.score := score;
     Point.payload := Some {| Point.text := Some id; Point.colbert_embedding := e |} |}.

(** Candidates "A" with vectors [[1,0]] and "B" with vectors [[0,1]]. *)
Definition point_A : Point.t := sample_point "A" half (Some [[one; zero]]).
Definition point_B : Point.t := sample_point "B" half (Some [[zero; one]]).

(** A candidate stored without vectors, one stored with an empty sequence of
    vectors, and one without payload. *)
Definition point_absent : Point.t := sample_point "C" lit_0_85 None.
Definition point_empty : Point.t := sample_point "D" one (Some []).
Definition point_bare : Point.t :=
  {| Point.id := "E"; Point.score := one; Point.payload := None |}.

(** Query vectors of dimension 128 and a stored vector of dimension 64. *)
Definition query_128 : list vector := [repeat one 128].
Definition point_64 : Point.t := sample_point "F" half (Some [repeat one 64]).

(** Twenty-five query tokens of which twenty-three match the stored token
    of [point_G]: a late-interaction score of [23/25 = 0.92], with a fused
    score of [0.85]. *)
Definition query_23_of_25 : list vector :=
  repeat [one; zero] 23 ++ repeat [zero; one] 2.
Definition point_G : Point.t := sample_point "G" lit_0_85 (Some [[one; zero]]).

(** Backends that resolve every request, the index with [sd]. *)
Definition sample_backends (qv : list vector) (sd : search_data) : backends :=
  fun R c =>
    match c in call R return option R with
    | ollama_embeddings _ _ => Some {| embedding := [one] |}
    | bm25_embed _ => Some {| embedding := {| indices := [1%Z]; values := [one] |} |}
    | colbert_embed _ => Some {| embedding := qv |}
    | points_query _ _ => Some sd
    end.

Definition with_points (ps : list Point.t) : search_data :=
  {| result := Some {| points := Some ps |} |}.

Definition sample_input (q : string) (k : option number) : Input.t :=
  {| Input.query := q; Input.collection_name := None; Input.top_k := k |}.

(** ** The claims as the specification words them *)

(** The order of the specification: [a] may stand before [b] when its final
    score is higher, or equal with a higher late-interaction score, or both
    equal with an id that is not greater. *)
Definition specified_before (a b : Result.t) : bool :=
  lt (Result.final_score b) (Result.final_score a)
  || ((Result.final_score a === Result.final_score b)%js
      && (lt (Result.colbert_score b) (Result.colbert_score a)
          || ((Result.colbert_score a === Result.colbert_score b)%js
              && String.leb (Result.id a) (Result.id b)))).

Fixpoint specified_order (l : list Result.t) : bool :=
  match l with
  | a :: (b :: _) as l' => specified_before a b && specified_order l'
  | _ => true
  end.

(** The three embedding requests are all sent before any of them settles. *)
Definition sent_together (tr : list event) : bool :=
  match tr with
  | Sent _ :: Sent _ :: Sent _ :: _ => true
  | _ => false
  end.

(** The run ends in an error without having sent a request. *)
Definition rejected_up_front {A : Type} (r : list event * outcome A) : Prop :=
  exists e, r = ([], Thrown e).

(** The limits of a request to the index: its own and those of its prefetches. *)
Definition index_limits (e : event) : option (number * list number) :=
  match e with
  | Sent (@Request _ (points_query _ body)) => Some (limit body, map pf_limit (prefetch body))
  | _ => None
  end.

(** [n <= x] for a count [n] and a number [x], on the exact value
    [± m * 2^e] of a finite double. *)
Definition at_most (n : nat) (x : number) : Prop :=
  match x with
  | S754_nan => False
  | S754_infinity s => s = false
  | S754_zero _ => (Z.of_nat n <= 0)%Z
  | S754_finite s m e =>
      if (0 <=? e)%Z then (Z.of_nat n <= cond_Zopp s (Zpos m * 2 ^ e))%Z
      else (Z.of_nat n * 2 ^ (- e) <= cond_Zopp s (Zpos m))%Z
  end.

(** The url a request goes to. *)
Definition sent_to (e : event) : option string :=
  match e with
  | Sent (@Request _ c) => Some (url c)
  | _ => None
  end.


(** ** The nodes that build the index

    The workflow "create collection, generate dense, BM25 and ColBERT
    embeddings, insert" that fills the collection the search node queries. *)

Module Item.
(** [$input.item.json] of these nodes: the fields one of them reads or
    writes, each possibly absent. *)
Record t : Type :=
  { id : option string;
    text : option string;
    collection_name : option string;
    metadata : option (list (string * string));
    dense_embedding : option (list number);
    dense_dimensions : option nat;
    bm25_embedding : option sparse;
    bm25_nnz : option nat;
    colbert_embedding : option (list vector);
    colbert_num_vectors : option nat }.
End Item.

Module Stored.
(** The point the insert node writes. *)
Inductive vector_value : Type :=
| dense_value (v : option (list number))
| sparse_value (s : sparse).

Record payload_t : Type :=
  { text : string;
    colbert_embedding : option (list vector);
    metadata : list (string * string);
    timestamp : string }.

Record point : Type :=
  { id : string;
    vector : list (string * vector_value);
    payload : payload_t }.
End Stored.

Module Nodes.

Record vector_params : Type := { size : Z; distance : string }.

Record collection_config : Type :=
  { vectors : list (string * vector_params);
    sparse_vectors : list string }.

(** The requests of these nodes, each indexed by the response read from it. *)
Inductive op : Type -> Type :=
| get_collection (collectionName : option string) : op unit
| put_collection (collectionName : option string) (body : collection_config) : op unit
| ollama_embeddings (model : string) (prompt : option string) : op (embedded (list number))
| bm25_single (texts : option string) : op (embedded sparse)
| colbert_single (texts : option string) : op (embedded (list vector))
| put_points (collectionName : string) (points : list Stored.point) : op string.

(** [`${x}`] for a string that may be [undefined]. *)
Definition interpolate (x : option string) : string :=
  match x with Some s => s | None => "undefined"%string end.

Definition method {R : Type} (c : op R) : string :=
  match c with
  | get_collection _ => "GET"
  | put_collection _ _ | put_points _ _ => "PUT"
  | _ => "POST"
  end.

Definition url {R : Type} (c : op R) : string :=
  match c with
  | get_collection n | put_collection n _ =>
      (qdrantUrl ++ "/collections/" ++ interpolate n)%string
  | ollama_embeddings _ _ => "http://ollama:11434/api/embeddings"
  | bm25_single _ => "http://fastembed-bm25:8000/embed/single"
  | colbert_single _ => "http://fastembed-colbert:8000/embed/single"
  | put_points n _ => (qdrantUrl ++ "/collections/" ++ n ++ "/points?wait=true")%string
  end.

Inductive any_op : Type :=
| Op (R : Type) (c : op R).
Arguments Op {R} c.

(** What the nodes write to the console. *)
Inductive console_entry : Type :=
| sending_json (points : list Stored.point)
| error_response.

(** A node body: it returns, throws, writes to the console, or makes a
    request and goes on with how it settled ([None]: rejected). *)
Inductive script (A : Type) : Type :=
| Done (a : A)
| Throw (e : error)
| Console (entry : console_entry) (k : script A)
| Settle (R : Type) (c : op R) (k : option R -> script A).

Arguments Done {A} a.
Arguments Throw {A} e.
Arguments Console {A} entry k.
Arguments Settle {A R} c k.

(** [await] outside a [try]: a rejection is thrown on. *)
Definition await {A R : Type} (c : op R) (k : R -> script A) : script A :=
  Settle c (fun r => match r with Some v => k v | None => Throw RequestError end).

(** One node after another: the item a node returns is the next node's input. *)
Fixpoint and_then {A B : Type} (p : script A) (f : A -> script B) : script B :=
  match p with
  | Done a => f a
  | Throw e => Throw e
  | Console entry k => Console entry (and_then k f)
  | Settle c k => Settle c (fun r => and_then (k r) f)
  end.

Inductive seen : Type :=
| Issued (r : any_op)
| Settled (ok : bool)
| Printed (entry : console_entry).

Inductive ending (A : Type) : Type :=
| Ok (a : A)
| Failed (e : error).

Arguments Ok {A} a.
Arguments Failed {A} e.

Definition services : Type := forall R : Type, op R -> option R.

Fixpoint exec {A : Type} (env : services) (p : script A) : list seen * ending A :=
  match p with
  | Done a => ([], Ok a)
  | Throw e => ([], Failed e)
  | Console entry k => let (tr, r) := exec env k in (Printed entry :: tr, r)
  | Settle c k =>
      let (tr, r) := exec env (k (env _ c)) in
      (Issued (Op c) :: Settled (match env _ c with Some _ => true | None => false end)
         :: tr, r)
  end.

(** *** Create collection *)

Record created_t : Type :=
  { created_collection_name : option string;
    created : bool;
    message : option string }.

Definition collectionConfig : collection_config :=
  {| vectors := [("dense"%string, {| size := 768; distance := "Cosine" |})];
     sparse_vectors := ["bm25"%string] |}.

Definition createCollection (i : Item.t) : script created_t :=
  let collectionName := Item.collection_name i in
  Settle (get_collection collectionName) (fun checked =>
    match checked with
    | Some _ =>
        Done {| created_collection_name := collectionName; created := false;
                message := Some "Already exists"%string |}
    | None =>
        await (put_collection collectionName collectionConfig) (fun _ =>
          Done {| created_collection_name := collectionName; created := true;
                  message := None |})
    end).

(** *** Generate embeddings *)

Definition generateDense (i : Item.t) : script Item.t :=
  let text := Item.text i in
  await (ollama_embeddings "nomic-embed-text" text) (fun data =>
    let denseEmbedding := embedding data in
    Done {| Item.id := Item.id i; Item.text := Item.text i;
            Item.collection_name := Item.collection_name i;
            Item.metadata := Item.metadata i;
            Item.dense_embedding := Some denseEmbedding;
            Item.dense_dimensions := Some (length denseEmbedding);
            Item.bm25_embedding := Item.bm25_embedding i;
            Item.bm25_nnz := Item.bm25_nnz i;
            Item.colbert_embedding := Item.colbert_embedding i;
            Item.colbert_num_vectors := Item.colbert_num_vectors i |}).

Definition generateBm25 (i : Item.t) : script Item.t :=
  let text := Item.text i in
  await (bm25_single text) (fun data =>
    let bm25Embedding := embedding data in
    Done {| Item.id := Item.id i; Item.text := Item.text i;
            Item.collection_name := Item.collection_name i;
            Item.metadata := Item.metadata i;
            Item.dense_embedding := Item.dense_embedding i;
            Item.dense_dimensions := Item.dense_dimensions i;
            Item.bm25_embedding := Some bm25Embedding;
            Item.bm25_nnz := Some (length (indices bm25Embedding));
            Item.colbert_embedding := Item.colbert_embedding i;
            Item.colbert_num_vectors := Item.colbert_num_vectors i |}).

Definition generateColbert (i : Item.t) : script Item.t :=
  let text := Item.text i in
  await (colbert_single text) (fun data =>
    let colbertEmbedding := embedding data in
    Done {| Item.id := Item.id i; Item.text := Item.text i;
            Item.collection_name := Item.collection_name i;
            Item.metadata := Item.metadata i;
            Item.dense_embedding := Item.dense_embedding i;
            Item.dense_dimensions := Item.dense_dimensions i;
            Item.bm25_embedding := Item.bm25_embedding i;
            Item.bm25_nnz := Item.bm25_nnz i;
            Item.colbert_embedding := Some colbertEmbedding;
            Item.colbert_num_vectors := Some (length colbertEmbedding) |}).

(** *** Insert document *)

Record inserted_t : Type :=
  { inserted_id : string;
    inserted_collection_name : string;
    inserted : bool;
    result : string }.

(** [now] is what [new Date().toISOString()] reads.  [!inputData.id ||
    !inputData.text] holds when either string is absent or empty. *)
Definition insertDocument (now : string) (inputData : Item.t) : script inserted_t :=
  let collectionName :=
    match Item.collection_name inputData with
    | Some n => if String.eqb n "" then "hybrid_search_collection"%string else n
    | None => "hybrid_search_collection"%string
    end in
  match Item.id inputData, Item.text inputData with
  | Some id, Some text =>
      if String.eqb id "" || String.eqb text ""
      then Throw (Error "Missing required fields: id and text")
      else
        match Item.bm25_embedding inputData with
        | None => Throw TypeError
        | Some bm25 =>
            let point :=
              {| Stored.id := id;
                 Stored.vector :=
                   [ ("dense"%string,
                      Stored.dense_value (Item.dense_embedding inputData));
                     ("bm25"%string,
                      Stored.sparse_value
                        {| indices := indices bm25; values := values bm25 |}) ];
                 Stored.payload :=
                   {| Stored.text := text;
                      Stored.colbert_embedding := Item.colbert_embedding inputData;
                      Stored.metadata :=
                        match Item.metadata inputData with Some m => m | None => [] end;
                      Stored.timestamp := now |} |} in
            let requestBody := [point] in
            Console (sending_json requestBody)
              (Settle (put_points collectionName requestBody) (fun settled =>
                 match settled with
                 | Some result =>
                     Done {| inserted_id := id;
                             inserted_collection_name := collectionName;
                             inserted := true;
                             result := result |}
                 | None => Console error_response (Throw RequestError)
                 end))
        end
  | _, _ => Throw (Error "Missing required fields: id and text")
  end.

(** *** The document pipeline: the three generators, then the insert. *)
Definition ingest (now : string) (i : Item.t) : script inserted_t :=
  and_then (and_then (and_then (generateDense i) generateBm25) generateColbert)
           (insertDocument now).

End Nodes.

(** *** What the statements about these nodes speak of *)

(** The requests of a run, in the order they were made. *)
Fixpoint requests (tr : list Nodes.seen) : list Nodes.any_op :=
  match tr with
  | [] => []
  | Nodes.Issued r :: tr' => r :: requests tr'
  | _ :: tr' => requests tr'
  end.

Definition method_of (r : Nodes.any_op) : string :=
  match r with @Nodes.Op _ c => Nodes.method c end.

Definition url_of (r : Nodes.any_op) : string :=
  match r with @Nodes.Op _ c => Nodes.url c end.

(** A string field that is there and not empty. *)
Definition present (s : option string) : bool :=
  match s with Some s => negb (String.eqb s "") | None => false end.

(** The generators run one after another in the given order. *)
Fixpoint chain (nodes : list (Item.t -> Nodes.script Item.t)) (i : Item.t)
  : Nodes.script Item.t :=
  match nodes with
  | [] => Nodes.Done i
  | n :: nodes' => Nodes.and_then (n i) (chain nodes')
  end.

(** The item with the three embeddings and their sizes filled in. *)
Definition filled (i : Item.t) (d : list number) (b : sparse) (c : list vector) : Item.t :=
  {| Item.id := Item.id i; Item.text := Item.text i;
     Item.collection_name := Item.collection_name i;
     Item.metadata := Item.metadata i;
     Item.dense_embedding := Some d;
     Item.dense_dimensions := Some (length d);
     Item.bm25_embedding := Some b;
     Item.bm25_nnz := Some (length (indices b));
     Item.colbert_embedding := Some c;
     Item.colbert_num_vectors := Some (length c) |}.

(** A stored point as the index hands it back to the search node, with its
    payload and a fused score. *)
Definition as_candidate (p : Stored.point) (score : number) : Point.t :=
  {| Point.id := Stored.id p;
     Point.score := score;
     Point.payload :=
       Some {| Point.text := Some (Stored.text (Stored.payload p));
               Point.colbert_embedding := Stored.colbert_embedding (Stored.payload p) |} |}.

(** The point the insert node builds. *)
Definition point_of (now : string) (i : Item.t) (id text : string) (bm25 : sparse)
  : Stored.point :=
  {| Stored.id := id;
     Stored.vector :=
       [ ("dense"%string, Stored.dense_value (Item.dense_embedding i));
         ("bm25"%string,
          Stored.sparse_value {| indices := indices bm25; values := values bm25 |}) ];
     Stored.payload :=
       {| Stored.text := text;
          Stored.colbert_embedding := Item.colbert_embedding i;
          Stored.metadata := match Item.metadata i with Some m => m | None => [] end;
          Stored.timestamp := now |} |}.

(** The collection the insert node writes to. *)
Definition target_collection (i : Item.t) : string :=
  match Item.collection_name i with
  | Some n => if String.eqb n "" then "hybrid_search_collection"%string else n
  | None => "hybrid_search_collection"%string
  end.

(** *** Sample data for the index-building nodes *)

(** Services that answer every request; the collection exists or not. *)
Definition sample_services (collection_exists : bool) : Nodes.services :=
  fun R c =>
    match c in Nodes.op R return option R with
    | Nodes.get_collection _ => if collection_exists then Some tt else None
    | Nodes.put_collection _ _ => Some tt
    | Nodes.ollama_embeddings _ _ => Some {| embedding := [one; zero] |}
    | Nodes.bm25_single _ =>
        Some {| embedding := {| indices := [7%Z]; values := [one] |} |}
    | Nodes.colbert_single _ => Some {| embedding := [[one; zero]] |}
    | Nodes.put_points _ _ => Some "acknowledged"%string
    end.

(** An item with only [id] and [text]. *)
Definition sample_item (id text : option string) : Item.t :=
  {| Item.id := id; Item.text := text; Item.collection_name := None;
     Item.metadata := None;
     Item.dense_embedding := None; Item.dense_dimensions := None;
     Item.bm25_embedding := None; Item.bm25_nnz := None;
     Item.colbert_embedding := None; Item.colbert_num_vectors := None |}.

Definition sample_document : Item.t :=
  sample_item (Some "doc_1"%string) (Some "hello"%string).

Definition sample_now : string := "2024-01-01T00:00:00.000Z".

(** The same item after the sparse generator. *)
Definition sample_item_bm25 : Item.t :=
  {| Item.id := Some "doc_1"%string; Item.text := Some "hello"%string;
     Item.collection_name := None; Item.metadata := None;
     Item.dense_embedding := None; Item.dense_dimensions := None;
     Item.bm25_embedding := Some {| indices := [7%Z]; values := [one] |};
     Item.bm25_nnz := Some 1;
     Item.colbert_embedding := None; Item.colbert_num_vectors := None |}.

(** The point the insert node writes for [sample_item_bm25]. *)
Definition sample_point_bm25 : Stored.point :=
  point_of sample_now sample_item_bm25 "doc_1" "hello"
           {| indices := [7%Z]; values := [one] |}.

(** Backends of the search node whose sparse service rejects. *)
Definition failing_backends : backends :=
  fun R c =>
    match c in call R return option R with
    | ollama_embeddings _ _ => Some {| embedding := [one] |}
    | _ => None
    end.


(** ** Case analysis on comparisons *)

Ltac case_compare :=
  repeat match goal with
    | |- context [Pos.compare_cont Eq ?a ?b] =>
        change (Pos.compare_cont Eq a b) with (Pos.compare a b)
    | |- context [Z.compare ?a ?b] =>
        destruct (Z.compare_spec a b); subst
    | |- context [Pos.compare ?a ?b] =>
        destruct (Pos.compare_spec a b); subst
    end;
  simpl; try reflexivity; try discriminate; try lia.

Ltac by_cases x :=
  destruct x as [[|]|[|]| |[|] ? ?].

Ltac split_compare :=
  repeat first
    [ progress simpl
    | match goal with
      | |- context [Pos.compare_cont Eq ?a ?b] =>
          change (Pos.compare_cont Eq a b) with (Pos.compare a b)
      | |- context [Z.compare ?a ?b] => destruct (Z.compare_spec a b); subst
      | |- context [Pos.compare ?a ?b] => destruct (Pos.compare_spec a b); subst
      end ];
  try reflexivity; try discriminate; try lia.

(** ** Facts about numbers *)

Section NumberFacts.

Lemma add_NaN_l (x : number) : (NaN + x)%js = NaN.
Proof. reflexivity. Qed.

Lemma add_NaN_r (x : number) : (x + NaN)%js = NaN.
Proof. now destruct x. Qed.

Lemma mul_NaN_l (x : number) : (NaN * x)%js = NaN.
Proof. reflexivity. Qed.

Lemma mul_NaN_r (x : number) : (x * NaN)%js = NaN.
Proof. now destruct x. Qed.

Lemma div_NaN_l (x : number) : (NaN / x)%js = NaN.
Proof. reflexivity. Qed.

Lemma Math_max_NaN_l (x : number) : Math_max NaN x = NaN.
Proof. reflexivity. Qed.

Lemma Math_max_NaN_r (x : number) : Math_max x NaN = NaN.
Proof. unfold Math_max. now rewrite orb_true_r. Qed.

Lemma Math_max_neg_Infinity (x : number) : Math_max neg_Infinity x = x.
Proof. destruct x as [s|s| |s m e]; try destruct s; reflexivity. Qed.

End NumberFacts.

(** ** The order of numbers *)

Section NumberOrder.

Lemma SFcompare_antisym (x y : number) :
  SFcompare y x = option_map CompOpp (SFcompare x y).
Proof. by_cases x; by_cases y; simpl; case_compare. Qed.

Lemma SFcompare_Lt_trans (x y z : number) :
  SFcompare x y = Some Lt -> SFcompare y z = Some Lt -> SFcompare x z = Some Lt.
Proof.
  by_cases x; by_cases y; simpl; try discriminate;
    by_cases z; simpl; try discriminate; try reflexivity;
    case_compare; intros; try discriminate; try lia.
Qed.

Lemma SFcompare_Eq_compat (x y z : number) :
  SFcompare x y = Some Eq -> SFcompare x z = SFcompare y z.
Proof.
  by_cases x; by_cases y; simpl; try discriminate;
    by_cases z; simpl; try discriminate; try reflexivity;
    case_compare; intros; try discriminate; try lia.
Qed.

Lemma SFcompare_refl (x : number) : is_nan x = false -> SFcompare x x = Some Eq.
Proof. by_cases x; simpl; try discriminate; case_compare. Qed.

Lemma SFcompare_total (x y : number) :
  is_nan x = false -> is_nan y = false -> exists c, SFcompare x y = Some c.
Proof. by_cases x; by_cases y; simpl; try discriminate; eauto. Qed.

Lemma SFcompare_Some_nonnan (x y : number) (c : comparison) :
  SFcompare x y = Some c -> is_nan x = false /\ is_nan y = false.
Proof. by_cases x; by_cases y; simpl; try discriminate; auto. Qed.

Lemma SFleb_refl (x : number) : is_nan x = false -> SFleb x x = true.
Proof. intros H. unfold SFleb. now rewrite SFcompare_refl. Qed.

Lemma SFltb_leb (x y : number) : SFltb x y = true -> SFleb x y = true.
Proof. unfold SFltb, SFleb. now destruct (SFcompare x y) as [[]|]. Qed.

Lemma SFltb_false_leb (x y : number) :
  is_nan x = false -> is_nan y = false -> SFltb x y = false -> SFleb y x = true.
Proof.
  intros Hx Hy. unfold SFltb, SFleb. rewrite (SFcompare_antisym x y).
  destruct (SFcompare_total x y Hx Hy) as [c ->]. now destruct c.
Qed.

Lemma SFleb_trans (x y z : number) :
  SFleb x y = true -> SFleb y z = true -> SFleb x z = true.
Proof.
  unfold SFleb.
  destruct (SFcompare x y) as [[]|] eqn:Hxy; try discriminate;
    destruct (SFcompare y z) as [[]|] eqn:Hyz; try discriminate; intros _ _.
  - now rewrite (SFcompare_Eq_compat x y z Hxy), Hyz.
  - now rewrite (SFcompare_Eq_compat x y z Hxy), Hyz.
  - rewrite (SFcompare_antisym z x), <- (SFcompare_Eq_compat y z x Hyz).
    now rewrite (SFcompare_antisym x y), Hxy.
  - now rewrite (SFcompare_Lt_trans x y z Hxy Hyz).
Qed.

Lemma SFleb_antisym (x y : number) :
  SFleb x y = true -> SFleb y x = true -> (x === y)%js = true.
Proof.
  unfold SFleb, strict_eq, SFeqb. rewrite (SFcompare_antisym x y).
  now destruct (SFcompare x y) as [[]|].
Qed.

Lemma strict_eq_refl (x : number) : is_nan x = false -> (x === x)%js = true.
Proof. intros H. unfold strict_eq, SFeqb. now rewrite SFcompare_refl. Qed.

Lemma SFleb_neg_Infinity (x : number) : SFleb x neg_Infinity = true -> x = neg_Infinity.
Proof. by_cases x; simpl; try discriminate; reflexivity. Qed.

Lemma strict_eq_zero (x : number) :
  (x === zero)%js = true -> exists s, x = S754_zero s.
Proof. by_cases x; simpl; try discriminate; eauto. Qed.

Lemma Math_max_cases (a b : number) :
  is_nan a = false -> is_nan b = false ->
  (Math_max a b = a \/ Math_max a b = b) /\
  SFleb a (Math_max a b) = true /\ SFleb b (Math_max a b) = true.
Proof.
  intros Ha Hb.
  assert (E : Math_max a b = (if lt a b then b else a) \/
              (a = S754_zero true /\ b = S754_zero false /\ Math_max a b = b)).
  { unfold Math_max. rewrite Ha, Hb. simpl.
    destruct a as [[|]|?| |? ? ?]; auto; destruct b as [[|]|?| |? ? ?]; auto. }
  destruct E as [E|(-> & -> & E)]; rewrite E.
  - unfold lt. destruct (SFltb a b) eqn:L.
    + repeat split; auto using SFltb_leb, SFleb_refl.
    + repeat split; auto using SFltb_false_leb, SFleb_refl.
  - repeat split; auto.
Qed.

End NumberOrder.

(** ** The scoring loop computes MaxSim *)

Section ScoringLoop.
Import MaxSim.

Lemma indexed_loop_paired (q d pq pd : vector) (a : acc) :
  length pq = length pd -> length q = length d ->
  fold_left (step (pq ++ q) (pd ++ d)) (seq (length pq) (length q)) a =
  fold_left paired (combine q d) a.
Proof.
  revert d pq pd a.
  induction q as [|x q IH]; intros [|y d] pq pd a Hp Hl; try discriminate; auto.
  simpl.
  assert (Es : step (pq ++ x :: q) (pd ++ y :: d) a (length pq) = paired a (x, y)).
  { unfold step, paired, at_index; simpl.
    rewrite nth_middle, Hp, nth_middle. reflexivity. }
  rewrite Es.
  replace (pq ++ x :: q) with ((pq ++ [x]) ++ q) by now rewrite <- app_assoc.
  replace (pd ++ y :: d) with ((pd ++ [y]) ++ d) by now rewrite <- app_assoc.
  replace (S (length pq)) with (length (pq ++ [x])) by (rewrite length_app; simpl; lia).
  apply IH; rewrite ?length_app; simpl in *; lia.
Qed.

Lemma paired_dot (l : list (number * number)) (a : acc) :
  dot (fold_left paired l a) =
  fold_left (fun s p => (s + fst p * snd p)%js) l (dot a).
Proof. revert a; induction l as [|p l IH]; intros a; simpl; auto. Qed.

Lemma paired_qNorm (q d : vector) (a : acc) :
  length q = length d ->
  qNorm (fold_left paired (combine q d) a) =
  fold_left (fun s p => (s + fst p * snd p)%js) (combine q q) (qNorm a).
Proof.
  revert d a; induction q as [|x q IH]; intros [|y d] a H; try discriminate; auto.
  simpl. rewrite IH by (simpl in H; lia). reflexivity.
Qed.

Lemma paired_dNorm (q d : vector) (a : acc) :
  length q = length d ->
  dNorm (fold_left paired (combine q d) a) =
  fold_left (fun s p => (s + fst p * snd p)%js) (combine d d) (dNorm a).
Proof.
  revert d a; induction q as [|x q IH]; intros [|y d] a H; try discriminate; auto.
  simpl. rewrite IH by (simpl in H; lia). reflexivity.
Qed.

Lemma sim_cosine (q d : vector) : length q = length d -> sim q d = cosine q d.
Proof.
  intros H. unfold sim, cosine, norm, dot_product, inner.
  pose proof (indexed_loop_paired q d [] [] acc0 eq_refl H) as E.
  simpl in E. rewrite E.
  now rewrite paired_dot, paired_qNorm, paired_dNorm.
Qed.

Lemma fold_left_map {A B C : Type} (f : A -> B -> A) (g : C -> B) (l : list C) (a : A) :
  fold_left (fun x c => f x (g c)) l a = fold_left f (map g l) a.
Proof. revert a; induction l; simpl; auto. Qed.

Lemma maxSim_maximum (n : nat) (q : vector) (D : list vector) :
  length q = n -> Forall (fun d => length d = n) D ->
  maxSim q D = maximum (map (cosine q) D).
Proof.
  intros Hq HD. unfold maxSim, maximum.
  rewrite (fold_left_map Math_max (sim q)). f_equal.
  apply map_ext_in. intros d Hd. apply sim_cosine.
  rewrite Forall_forall in HD. rewrite (HD d Hd). exact Hq.
Qed.

Lemma colbertScore_score (n : nat) (Q D : list vector) :
  Forall (fun q => length q = n) Q -> Forall (fun d => length d = n) D ->
  colbertScore Q D = score Q D.
Proof.
  intros HQ HD. unfold colbertScore, score, average, sum.
  rewrite length_map.
  rewrite (fold_left_map add (fun q => maxSim q D)). do 2 f_equal.
  apply map_ext_in. intros q Hq. rewrite Forall_forall in HQ.
  apply (maxSim_maximum n); auto.
Qed.

(** The maximum of NaN-free numbers is reached and bounds them all. *)
Lemma fold_max_greatest (l : list number) (a : number) :
  is_nan a = false -> Forall (fun x => is_nan x = false) l ->
  let m := fold_left Math_max l a in
  (m = a \/ In m l) /\ SFleb a m = true /\ Forall (fun x => SFleb x m = true) l.
Proof.
  revert a. induction l as [|x l IH]; intros a Ha Hl; simpl.
  - repeat split; auto using SFleb_refl.
  - inversion Hl as [|? ? Hx Hl']; subst.
    destruct (Math_max_cases a x Ha Hx) as (Hc & Hla & Hlx).
    assert (Hm : is_nan (Math_max a x) = false) by (destruct Hc as [-> | ->]; auto).
    destruct (IH (Math_max a x) Hm Hl') as (Hin & Hle & Hall).
    repeat split.
    + destruct Hin as [Hin|Hin]; auto.
      rewrite Hin. destruct Hc as [-> | ->]; auto.
    + eauto using SFleb_trans.
    + constructor; eauto using SFleb_trans.
Qed.

Lemma maximum_greatest (l : list number) :
  l <> [] -> Forall (fun x => is_nan x = false) l -> greatest (maximum l) l.
Proof.
  intros Hne Hl. unfold maximum, greatest.
  destruct (fold_max_greatest l neg_Infinity eq_refl Hl) as (Hin & _ & Hall).
  split; auto. destruct Hin as [Hin|Hin]; auto.
  destruct l as [|x l]; [congruence|].
  rewrite Hin in *. inversion Hall; subst.
  left. now apply SFleb_neg_Infinity.
Qed.

(** Starting from [-Infinity] loses nothing: the maximum of a non-empty
    list is the maximum of its tail started from its head. *)
Lemma maximum_cons (x : number) (l : list number) :
  maximum (x :: l) = fold_left Math_max l x.
Proof. unfold maximum. cbn [fold_left]. now rewrite Math_max_neg_Infinity. Qed.

Lemma cosine_zero_norm (q d : vector) :
  (zero_norm q = true /\ Number_isFinite (norm d) = true) \/
  (Number_isFinite (norm q) = true /\ zero_norm d = true) ->
  cosine q d = zero.
Proof.
  unfold zero_norm, cosine.
  intros [[Hz Hf]|[Hf Hz]]; apply strict_eq_zero in Hz; destruct Hz as [s Hz];
    rewrite Hz in *.
  - destruct (norm d) as [?|?| |? ? ?]; try discriminate; reflexivity.
  - destruct (norm q) as [?|?| |? ? ?]; try discriminate; reflexivity.
Qed.

End ScoringLoop.


(** ** The sign of a difference

    For finite doubles the subtraction [y - x] may round, but it is positive
    exactly when [x < y]: the difference is computed exactly before it is
    rounded, and rounding neither loses a non-zero value nor changes a sign. *)

Section Rounding.
Local Open Scope Z_scope.

Lemma digits2_bounds (p : positive) :
  2 ^ (Zpos (digits2_pos p) - 1) <= Zpos p < 2 ^ Zpos (digits2_pos p).
Proof.
  induction p as [p IH|p IH|]; simpl digits2_pos.
  - rewrite Pos2Z.inj_succ. replace (Z.succ (Zpos (digits2_pos p)) - 1) with (Z.succ (Zpos (digits2_pos p) - 1)) by lia.
    rewrite !Z.pow_succ_r by lia. lia.
  - rewrite Pos2Z.inj_succ. replace (Z.succ (Zpos (digits2_pos p)) - 1) with (Z.succ (Zpos (digits2_pos p) - 1)) by lia.
    rewrite !Z.pow_succ_r by lia. lia.
  - simpl. lia.
Qed.

Lemma shr_1_m (r : shr_record) : 0 <= shr_m r -> shr_m (shr_1 r) = shr_m r / 2.
Proof.
  destruct r as [m r s]. simpl. intros H.
  destruct m as [|[p|p|]|p]; cbn [shr_1 shr_m] in *; try lia; try reflexivity.
  - apply Z.div_unique with (r := 1); lia.
  - apply Z.div_unique with (r := 0); lia.
Qed.

Lemma pow2_xO (p : positive) : 2 ^ Zpos p~0 = 2 ^ Zpos p * 2 ^ Zpos p.
Proof. replace (Zpos p~0) with (Zpos p + Zpos p) by lia. apply Z.pow_add_r; lia. Qed.

Lemma pow2_xI (p : positive) : 2 ^ Zpos p~1 = 2 * (2 ^ Zpos p * 2 ^ Zpos p).
Proof.
  replace (Zpos p~1) with (Z.succ (Zpos p + Zpos p)) by lia.
  rewrite Z.pow_succ_r, Z.pow_add_r by lia. reflexivity.
Qed.

Lemma shr_m_iter (p : positive) (r : shr_record) :
  0 <= shr_m r -> shr_m (iter_pos shr_1 p r) = shr_m r / 2 ^ Zpos p.
Proof.
  revert r. induction p as [p IH|p IH|]; intros r H; simpl iter_pos.
  - assert (Hp : 0 < 2 ^ Zpos p) by (apply Z.pow_pos_nonneg; lia).
    assert (H1 : 0 <= shr_m (shr_1 r)) by (rewrite shr_1_m by auto; apply Z.div_pos; lia).
    assert (H2 : 0 <= shr_m (iter_pos shr_1 p (shr_1 r))) by (rewrite IH by auto; apply Z.div_pos; lia).
    rewrite IH, IH, shr_1_m by auto.
    rewrite !Z.div_div by lia. now rewrite pow2_xI.
  - assert (Hp : 0 < 2 ^ Zpos p) by (apply Z.pow_pos_nonneg; lia).
    assert (H2 : 0 <= shr_m (iter_pos shr_1 p r)) by (rewrite IH by auto; apply Z.div_pos; lia).
    rewrite IH, IH by auto.
    rewrite !Z.div_div by lia. now rewrite pow2_xO.
  - rewrite shr_1_m by auto. reflexivity.
Qed.

Lemma shr_fexp_pos (m e : Z) (l : location) :
  0 < m -> emin <= e ->
  0 < shr_m (fst (shr_fexp prec emax m e l)) /\ emin <= snd (shr_fexp prec emax m e l).
Proof.
  intros Hm He. unfold shr_fexp, shr.
  assert (Hr : shr_m (shr_record_of_loc m l) = m) by (destruct l as [|[]]; reflexivity).
  destruct m as [|p|p]; try lia. cbn [Zdigits2].
  pose proof (digits2_bounds p) as Hd.
  set (d := Zpos (digits2_pos p)) in *.
  unfold fexp. change (SpecFloat.emin prec emax) with (-1074) in *. change prec with 53.
  destruct (Z.max (d + e - 53) (-1074) - e) as [|n|n] eqn:En; cbn [fst snd]; try (rewrite Hr; lia).
  rewrite shr_m_iter by (rewrite Hr; lia). rewrite Hr. split; [|lia].
  assert (Hn : Zpos n <= d - 1) by lia.
  apply Z.div_str_pos. split; [apply Z.pow_pos_nonneg; lia|].
  apply Z.le_trans with (2 ^ (d - 1)); [|lia].
  apply Z.pow_le_mono_r; lia.
Qed.

Lemma round_nearest_even_le (m : Z) (l : location) : m <= round_nearest_even m l.
Proof. destruct l as [|[]]; simpl; try lia. destruct (Z.even m); lia. Qed.

Lemma binary_round_aux_pos (m e : Z) (l : location) :
  0 < m -> emin <= e -> lt zero (binary_round_aux prec emax false m e l) = true.
Proof.
  intros Hm He. unfold binary_round_aux.
  destruct (shr_fexp_pos m e l Hm He) as [H1 H2].
  destruct (shr_fexp prec emax m e l) as [mrs' e']. cbn [fst snd] in *.
  pose proof (round_nearest_even_le (shr_m mrs') (loc_of_shr_record mrs')) as Hr.
  set (m1 := round_nearest_even (shr_m mrs') (loc_of_shr_record mrs')) in *.
  assert (Hm1 : 0 < m1) by lia.
  destruct (shr_fexp_pos m1 e' loc_Exact Hm1 H2) as [H3 H4].
  destruct (shr_fexp prec emax m1 e' loc_Exact) as [mrs'' e'']. cbn [fst snd] in *.
  destruct (shr_m mrs'') as [|q|q]; try lia.
  destruct (e'' <=? emax - prec); reflexivity.
Qed.

Lemma binary_round_aux_neg (m e : Z) (l : location) :
  lt zero (binary_round_aux prec emax true m e l) = false.
Proof.
  unfold binary_round_aux.
  destruct (shr_fexp prec emax m e l) as [mrs' e'].
  destruct (shr_fexp prec emax _ e' loc_Exact) as [mrs'' e''].
  destruct (shr_m mrs'') as [|q|q]; try reflexivity.
  destruct (e'' <=? emax - prec); reflexivity.
Qed.

Lemma shl_align_fst (m : positive) (e e' : Z) :
  e' <= e -> Zpos (fst (shl_align m e e')) = Zpos m * 2 ^ (e - e').
Proof.
  intros H. unfold shl_align.
  destruct (e' - e) as [|d|d] eqn:E; try lia; cbn [fst].
  - replace (e - e') with 0 by lia. lia.
  - replace (e - e') with (Zpos d) by lia.
    clear. induction d as [|d IH] using Pos.peano_ind.
    + simpl. lia.
    + rewrite Pos.iter_succ, Pos2Z.inj_xO, IH, Pos2Z.inj_succ, Z.pow_succ_r by lia. lia.
Qed.

Lemma shl_align_snd (m : positive) (e e' : Z) :
  snd (shl_align m e e') = Z.min e e'.
Proof.
  unfold shl_align. destruct (e' - e) as [|d|d] eqn:E; cbn [snd]; lia.
Qed.

Lemma binary_round_pos (m : positive) (e : Z) :
  emin <= e -> lt zero (binary_round prec emax false m e) = true.
Proof.
  intros He. unfold binary_round.
  pose proof (shl_align_snd m e (fexp prec emax (Z.pos (digits2_pos m) + e))) as Hs.
  destruct (shl_align m e _) as [mz ez]. cbn [snd] in Hs.
  apply binary_round_aux_pos; [lia|].
  subst ez. unfold fexp. change (SpecFloat.emin prec emax) with (-1074) in *. lia.
Qed.

Lemma binary_round_neg (m : positive) (e : Z) :
  lt zero (binary_round prec emax true m e) = false.
Proof.
  unfold binary_round. destruct (shl_align m e _) as [mz ez].
  apply binary_round_aux_neg.
Qed.

Lemma binary_normalize_sign (m e : Z) :
  emin <= e -> lt zero (binary_normalize prec emax m e false) = (0 <? m).
Proof.
  intros He. destruct m as [|p|p]; cbn [binary_normalize].
  - reflexivity.
  - now rewrite binary_round_pos.
  - now rewrite binary_round_neg.
Qed.

Lemma bounded_canonical (m : positive) (e : Z) :
  bounded prec emax m e = true ->
  e = Z.max (Zpos (digits2_pos m) + e - 53) (-1074).
Proof.
  unfold bounded, canonical_mantissa, fexp.
  change (SpecFloat.emin prec emax) with (-1074). change prec with 53.
  intros H. apply andb_prop in H. destruct H as [H _].
  apply Z.eqb_eq in H. lia.
Qed.

Lemma canonical_lt (mx my : positive) (ex ey : Z) :
  bounded prec emax mx ex = true -> bounded prec emax my ey = true ->
  ex < ey -> Zpos mx < Zpos my * 2 ^ (ey - ex).
Proof.
  intros Hx Hy Hlt.
  apply bounded_canonical in Hx, Hy.
  pose proof (digits2_bounds mx) as Dx. pose proof (digits2_bounds my) as Dy.
  set (dx := Zpos (digits2_pos mx)) in *. set (dy := Zpos (digits2_pos my)) in *.
  assert (Edy : dy = 53) by lia. rewrite Edy in Dy.
  assert (Ldx : dx <= 53) by lia.
  assert (H1 : 2 ^ dx <= 2 ^ 53) by (apply Z.pow_le_mono_r; lia).
  assert (H2 : 2 ^ 1 <= 2 ^ (ey - ex)) by (apply Z.pow_le_mono_r; lia).
  change (2 ^ 1) with 2 in H2. change (2 ^ (53 - 1)) with 4503599627370496 in Dy.
  change (2 ^ 53) with 9007199254740992 in *. nia.
Qed.

Lemma sub_sign (x y : number) :
  finite x = true -> finite y = true -> lt zero (y - x)%js = SFltb x y.
Proof.
  unfold finite.
  destruct x as [sx|sx| |sx mx ex], y as [sy|sy| |sy my ey]; try discriminate;
    cbn [Number_isFinite SpecFloat.valid_binary andb]; intros Hx Hy.
  - destruct sx, sy; reflexivity.
  - destruct sy; reflexivity.
  - destruct sx; reflexivity.
  - unfold sub, SFsub.
    pose proof (bounded_canonical _ _ Hx) as Cx. pose proof (bounded_canonical _ _ Hy) as Cy.
    rewrite binary_normalize_sign by (change (SpecFloat.emin prec emax) with (-1074); lia).
    rewrite !shl_align_fst by lia.
    unfold SFltb, SFcompare.
    destruct (Z.compare_spec ex ey) as [E|L|G].
    + subst ey. rewrite Z.min_id, Z.sub_diag. change (2 ^ 0) with 1. rewrite !Z.mul_1_r.
      change (Pos.compare_cont Eq mx my) with (Pos.compare mx my).
      destruct (Pos.compare_spec mx my); destruct sx, sy; cbn [cond_Zopp CompOpp]; lia.
    + pose proof (canonical_lt _ _ _ _ Hx Hy L) as M.
      replace (Z.min ey ex) with ex by lia. rewrite Z.sub_diag. change (2 ^ 0) with 1.
      rewrite Z.mul_1_r.
      destruct sx, sy; cbn [cond_Zopp]; lia.
    + pose proof (canonical_lt _ _ _ _ Hy Hx G) as M.
      replace (Z.min ey ex) with ey by lia. rewrite Z.sub_diag. change (2 ^ 0) with 1.
      rewrite Z.mul_1_r.
      destruct sx, sy; cbn [cond_Zopp]; lia.
Qed.

(** *** Products of norms do not underflow

    A square root of a positive double is at least [2^-537], so the product
    of two non-zero norms is at least [2^-1074], the smallest positive
    double, and is not rounded to zero. *)

Lemma shr_fexp_snd (m e : Z) (l : location) :
  emin <= snd (shr_fexp prec emax m e l).
Proof.
  unfold shr_fexp, shr, fexp. change (SpecFloat.emin prec emax) with (-1074).
  destruct (Z.max (Zdigits2 m + e - prec) (-1074) - e) as [|n|n] eqn:En; cbn [snd]; lia.
Qed.

Lemma digits2_lower (p : positive) (k : Z) :
  2 ^ k <= Zpos p -> k < Zpos (digits2_pos p).
Proof.
  intros H. pose proof (digits2_bounds p) as [_ Hd].
  apply (Z.pow_lt_mono_r_iff 2); lia.
Qed.

Lemma shr_fexp_lower (m e : Z) (l : location) :
  0 < m -> -1073 <= Zdigits2 m + e ->
  0 < shr_m (fst (shr_fexp prec emax m e l)) /\
  Zdigits2 m + e
  <= Zdigits2 (shr_m (fst (shr_fexp prec emax m e l))) + snd (shr_fexp prec emax m e l).
Proof.
  intros Hm Hk. unfold shr_fexp, shr.
  assert (Hr : shr_m (shr_record_of_loc m l) = m) by (destruct l as [|[]]; reflexivity).
  destruct m as [|p|p]; try lia. cbn [Zdigits2] in *.
  pose proof (digits2_bounds p) as Hd.
  set (d := Zpos (digits2_pos p)) in *.
  unfold fexp. change (SpecFloat.emin prec emax) with (-1074) in *. change prec with 53.
  destruct (Z.max (d + e - 53) (-1074) - e) as [|n|n] eqn:En; cbn [fst snd];
    try (rewrite Hr; cbn [Zdigits2]; fold d; lia).
  rewrite shr_m_iter by (rewrite Hr; lia). rewrite Hr.
  assert (Hn : Zpos n <= d - 1) by lia.
  assert (Hp : 0 < 2 ^ Zpos n) by (apply Z.pow_pos_nonneg; lia).
  assert (Hq : 2 ^ (d - 1 - Zpos n) <= Zpos p / 2 ^ Zpos n).
  { apply Z.div_le_lower_bound; [lia|].
    rewrite <- Z.pow_add_r by lia. replace (Zpos n + (d - 1 - Zpos n)) with (d - 1) by lia.
    lia. }
  assert (H1 : 0 < 2 ^ (d - 1 - Zpos n)) by (apply Z.pow_pos_nonneg; lia).
  destruct (Zpos p / 2 ^ Zpos n) as [|q|q] eqn:Eq; try lia.
  split; [lia|]. cbn [Zdigits2].
  pose proof (digits2_lower q _ Hq). lia.
Qed.

Lemma Zdigits2_le (a b : Z) : 0 < a -> a <= b -> Zdigits2 a <= Zdigits2 b.
Proof.
  intros Ha Hab. destruct a as [|p|p], b as [|q|q]; try lia. cbn [Zdigits2].
  pose proof (digits2_bounds p) as [Hp _].
  assert (H : 2 ^ (Zpos (digits2_pos p) - 1) <= Zpos q) by lia.
  apply digits2_lower in H. lia.
Qed.

Lemma binary_round_aux_lower (s : bool) (m e : Z) (l : location) :
  0 < m -> -1073 <= Zdigits2 m + e ->
  magnitude_at_least (Zdigits2 m + e) (binary_round_aux prec emax s m e l) /\
  (binary_round_aux prec emax s m e l === zero)%js = false.
Proof.
  intros Hm Hk. unfold binary_round_aux.
  destruct (shr_fexp_lower m e l Hm Hk) as [H1 H2].
  pose proof (shr_fexp_snd m e l) as H0.
  destruct (shr_fexp prec emax m e l) as [mrs' e']. cbn [fst snd] in *.
  pose proof (round_nearest_even_le (shr_m mrs') (loc_of_shr_record mrs')) as Hr.
  set (m1 := round_nearest_even (shr_m mrs') (loc_of_shr_record mrs')) in *.
  assert (Hm1 : 0 < m1) by lia.
  pose proof (Zdigits2_le _ _ H1 Hr) as Hd.
  assert (Hk1 : -1073 <= Zdigits2 m1 + e') by lia.
  destruct (shr_fexp_lower m1 e' loc_Exact Hm1 Hk1) as [H3 H4].
  destruct (shr_fexp prec emax m1 e' loc_Exact) as [mrs'' e'']. cbn [fst snd] in *.
  destruct (shr_m mrs'') as [|q|q]; try lia.
  cbn [Zdigits2] in H4.
  destruct (e'' <=? emax - prec); destruct s; cbn [magnitude_at_least]; split;
    try reflexivity; try exact I; lia.
Qed.

Lemma binary_round_aux_exponent (s : bool) (m e : Z) (l : location) :
  exponent_in_range (binary_round_aux prec emax s m e l).
Proof.
  unfold binary_round_aux.
  destruct (shr_fexp prec emax m e l) as [mrs' e'].
  pose proof (shr_fexp_snd (round_nearest_even (shr_m mrs') (loc_of_shr_record mrs'))
                e' loc_Exact) as H.
  destruct (shr_fexp prec emax _ e' loc_Exact) as [mrs'' e'']. cbn [snd] in H.
  destruct (shr_m mrs'') as [|q|q]; try exact I.
  destruct (e'' <=? emax - prec); [exact H|exact I].
Qed.

Lemma mul_exponent (x y : number) : exponent_in_range (x * y)%js.
Proof.
  destruct x as [sx|sx| |sx mx ex], y as [sy|sy| |sy my ey]; try exact I.
  apply binary_round_aux_exponent.
Qed.

Lemma add_exponent (x y : number) :
  exponent_in_range x -> exponent_in_range y -> exponent_in_range (x + y)%js.
Proof.
  destruct x as [sx|sx| |sx mx ex], y as [sy|sy| |sy my ey]; intros Hx Hy;
    try exact I; try assumption;
    try (destruct sx, sy; exact I).
  unfold add, SFadd, binary_normalize, binary_round.
  destruct (_ + _) as [|p|p]; try exact I;
    destruct (shl_align p _ _) as [mz ez]; apply binary_round_aux_exponent.
Qed.

Lemma sqrt_lower (m : positive) (e : Z) :
  emin <= e ->
  magnitude_at_least (-536) (Math_sqrt (S754_finite false m e)) /\
  (Math_sqrt (S754_finite false m e) === zero)%js = false.
Proof.
  change emin with (-1074). intros He.
  unfold Math_sqrt, SFsqrt, SFsqrt_core_binary. cbn [Zdigits2].
  pose proof (digits2_bounds m) as Hd.
  set (d := Zpos (digits2_pos m)) in *.
  set (e' := Z.min (fexp prec emax (Z.div2 (d + e + 1))) (Z.div2 e)).
  assert (Hs : 0 <= e - 2 * e').
  { unfold e'. rewrite (Z.div2_div e). pose proof (Z.mul_div_le e 2). lia. }
  set (m' := match e - 2 * e' with
             | 0 => Zpos m
             | Zpos _ => Z.shiftl (Zpos m) (e - 2 * e')
             | Zneg _ => 0
             end).
  assert (Em : m' = Zpos m * 2 ^ (e - 2 * e')).
  { unfold m'. destruct (e - 2 * e') as [|p|p] eqn:Es; try lia.
    apply Z.shiftl_mul_pow2. lia. }
  pose proof (Z.sqrtrem_sqrt m') as Eq.
  destruct (Z.sqrtrem m') as [q r]. cbn [fst] in Eq.
  set (j := (d - 1 + (e - 2 * e')) / 2).
  assert (Hj : 0 <= j) by (apply Z.div_pos; lia).
  assert (Hj2 : 2 * j <= d - 1 + (e - 2 * e') <= 2 * j + 1).
  { unfold j. pose proof (Z.mul_div_le (d - 1 + (e - 2 * e')) 2).
    pose proof (Z.mul_succ_div_gt (d - 1 + (e - 2 * e')) 2). lia. }
  assert (Hp : 0 < 2 ^ j) by (apply Z.pow_pos_nonneg; lia).
  assert (Hm' : 2 ^ j * 2 ^ j <= m').
  { rewrite <- Z.pow_add_r by lia. rewrite Em.
    apply Z.le_trans with (2 ^ (d - 1) * 2 ^ (e - 2 * e')).
    - rewrite <- Z.pow_add_r by lia. apply Z.pow_le_mono_r; lia.
    - apply Z.mul_le_mono_nonneg_r; [apply Z.pow_nonneg|]; lia. }
  assert (Hq : 2 ^ j <= q).
  { subst q. apply Z.sqrt_le_square; lia. }
  assert (Hq0 : 0 < q) by lia.
  assert (Hdq : j < Zdigits2 q).
  { destruct q as [|q|q]; try lia. cbn [Zdigits2]. now apply digits2_lower. }
  set (l := if r =? 0 then loc_Exact else loc_Inexact (if r <=? q then Lt else Gt)).
  destruct (binary_round_aux_lower false q e' l Hq0) as [H1 H2]; [lia|].
  split; [|exact H2].
  destruct (binary_round_aux prec emax false q e' l); try exact I.
  cbn [magnitude_at_least] in *. lia.
Qed.

Lemma mul_lower (x y : number) :
  Number_isFinite x = true -> Number_isFinite y = true ->
  (x === zero)%js = false -> (y === zero)%js = false ->
  magnitude_at_least (-536) x -> magnitude_at_least (-536) y ->
  (x * y === zero)%js = false.
Proof.
  intros Fx Fy Zx Zy Hx Hy.
  destruct x as [[|]|sx| |sx mx ex]; try discriminate Fx; try discriminate Zx.
  destruct y as [[|]|sy| |sy my ey]; try discriminate Fy; try discriminate Zy.
  cbn [magnitude_at_least] in *.
  unfold mul, SFmul.
  apply binary_round_aux_lower; [lia|]. cbn [Zdigits2].
  pose proof (digits2_bounds mx) as [Dx _]. pose proof (digits2_bounds my) as [Dy _].
  set (dx := Zpos (digits2_pos mx)) in *. set (dy := Zpos (digits2_pos my)) in *.
  assert (H : 2 ^ (dx - 1 + (dy - 1)) <= Zpos (mx * my)).
  { rewrite Z.pow_add_r by (unfold dx, dy; lia). rewrite Pos2Z.inj_mul.
    apply Z.mul_le_mono_nonneg; try lia; apply Z.pow_nonneg; lia. }
  apply digits2_lower in H. lia.
Qed.

End Rounding.

(** ** The guard of the cosine *)

Section GuardFacts.
Import MaxSim.

Lemma dot_product_exponent (v w : vector) : exponent_in_range (dot_product v w).
Proof.
  unfold dot_product. assert (H : exponent_in_range zero) by exact I.
  revert H. generalize zero. generalize (combine v w).
  induction l as [|p l IH]; intros a Ha; simpl; auto.
  apply IH. apply add_exponent; [exact Ha|apply mul_exponent].
Qed.

Lemma norm_lower (v : vector) :
  Number_isFinite (norm v) = true -> zero_norm v = false ->
  magnitude_at_least (-536) (norm v).
Proof.
  unfold zero_norm, norm. pose proof (dot_product_exponent v v) as H.
  destruct (dot_product v v) as [s|s| |s m e]; cbn [exponent_in_range] in H.
  - destruct s; discriminate.
  - destruct s; discriminate.
  - discriminate.
  - destruct s; [discriminate|]. intros _ _. now apply sqrt_lower.
Qed.

(** Where both norms are finite the guard of the code, a vanishing product
    of the norms, is the guard of the specification, a vanishing norm. *)
Lemma cosine_as_worded_eq (q d : vector) :
  Number_isFinite (norm q) = true -> Number_isFinite (norm d) = true ->
  cosine q d = cosine_as_worded q d.
Proof.
  intros Fq Fd. unfold cosine, cosine_as_worded.
  destruct (zero_norm q) eqn:Zq; [|destruct (zero_norm d) eqn:Zd]; cbn [orb].
  - unfold zero_norm in Zq.
    destruct (norm q) as [sq|sq| |sq mq eq_]; try discriminate;
      [|destruct sq; discriminate].
    destruct (norm d) as [sd|sd| |sd md ed]; try discriminate;
      destruct sq, sd; reflexivity.
  - unfold zero_norm in Zd.
    destruct (norm d) as [sd|sd| |sd md ed]; try discriminate;
      [|destruct sd; discriminate].
    destruct (norm q) as [sq|sq| |sq mq eq_]; try discriminate;
      destruct sq, sd; reflexivity.
  - rewrite mul_lower; auto using norm_lower.
Qed.

Lemma score_as_worded_eq (Q D : list vector) :
  finite_norms Q -> finite_norms D -> score Q D = score_as_worded Q D.
Proof.
  unfold finite_norms, score, score_as_worded. rewrite !Forall_forall.
  intros HQ HD. f_equal. apply map_ext_in. intros q Hq. f_equal.
  apply map_ext_in. intros d Hd. apply cosine_as_worded_eq; auto.
Qed.

End GuardFacts.

(** ** The sort *)

Section SortFacts.
Context {A : Type} (cmp : A -> A -> number) (key : A -> number).

(** The comparator orders by [key], descending key, on finite keys. *)
Hypothesis cmp_key : forall a b,
  finite (key a) = true -> finite (key b) = true ->
  goes_after cmp a b = SFltb (key a) (key b).

Lemma finite_nonnan (x : number) : finite x = true -> is_nan x = false.
Proof. now destruct x. Qed.

Lemma insert_perm (x : A) (l : list A) : Permutation (insert cmp x l) (x :: l).
Proof.
  induction l as [|y l IH]; simpl; auto.
  destruct (goes_after cmp x y); auto.
  rewrite IH. apply perm_swap.
Qed.

Lemma Array_sort_perm (l : list A) : Permutation (Array_sort cmp l) l.
Proof.
  induction l as [|x l IH]; simpl; auto.
  rewrite insert_perm. now constructor.
Qed.

Lemma insert_sorted (x : A) (l : list A) :
  finite_key key x -> Forall (finite_key key) l ->
  StronglySorted (descending key) l ->
  StronglySorted (descending key) (insert cmp x l).
Proof.
  intros Hx Hl Hs. induction Hs as [|y l Hs IH Hy]; simpl.
  - repeat constructor.
  - inversion Hl as [|? ? Fy Fl]; subst.
    rewrite (cmp_key x y Hx Fy).
    destruct (SFltb (key x) (key y)) eqn:L.
    + constructor; auto.
      apply (Permutation_Forall (Permutation_sym (insert_perm x l))).
      constructor; auto. now apply SFltb_leb.
    + assert (D : descending key x y)
        by (apply SFltb_false_leb; auto using finite_nonnan).
      constructor; [constructor; auto|].
      constructor; auto.
      eapply Forall_impl; [|exact Hy].
      intros z Hz. unfold descending in *. eauto using SFleb_trans.
Qed.

Lemma Array_sort_sorted (l : list A) :
  Forall (finite_key key) l -> StronglySorted (descending key) (Array_sort cmp l).
Proof.
  induction 1 as [|x l Hx Hl IH]; simpl; [constructor|].
  apply insert_sorted; auto.
  apply (Permutation_Forall (Permutation_sym (Array_sort_perm l))); auto.
Qed.

Lemma key_is_after (s : number) (x y : A) :
  finite_key key x -> finite_key key y ->
  key_is key s x = true -> goes_after cmp x y = true -> key_is key s y = false.
Proof.
  intros Hx Hy. rewrite (cmp_key x y Hx Hy).
  unfold key_is, strict_eq, SFeqb, SFltb.
  destruct (SFcompare (key x) s) as [[]|] eqn:E; try discriminate. intros _.
  rewrite (SFcompare_antisym s (key y)), <- (SFcompare_Eq_compat _ _ (key y) E).
  now destruct (SFcompare (key x) (key y)) as [[]|].
Qed.

Lemma insert_stable (s : number) (x : A) (l : list A) :
  finite_key key x -> Forall (finite_key key) l ->
  filter (key_is key s) (insert cmp x l) = filter (key_is key s) (x :: l).
Proof.
  intros Hx Hl. induction Hl as [|y l Hy Hl IH]; auto.
  cbn [insert]. destruct (goes_after cmp x y) eqn:G; auto.
  cbn [filter] in *. rewrite IH.
  destruct (key_is key s x) eqn:Kx; auto.
  now rewrite (key_is_after s x y Hx Hy Kx G).
Qed.

Lemma Array_sort_stable (s : number) (l : list A) :
  Forall (finite_key key) l ->
  filter (key_is key s) (Array_sort cmp l) = filter (key_is key s) l.
Proof.
  induction 1 as [|x l Hx Hl IH]; auto.
  cbn [Array_sort fold_right]. fold (Array_sort cmp l).
  rewrite insert_stable; auto.
  - cbn [filter]. now rewrite IH.
  - apply (Permutation_Forall (Permutation_sym (Array_sort_perm l))); auto.
Qed.

(** A descending list in which equal keys stand in a given order is
    determined by that order: two such lists are equal. *)
Lemma stable_sorted_unique (l1 l2 : list A) :
  Forall (finite_key key) l1 -> Forall (finite_key key) l2 ->
  StronglySorted (descending key) l1 -> StronglySorted (descending key) l2 ->
  (forall s, filter (key_is key s) l1 = filter (key_is key s) l2) ->
  l1 = l2.
Proof.
  assert (Self : forall x, finite_key key x -> key_is key (key x) x = true)
    by (intros x Hx; apply strict_eq_refl, finite_nonnan, Hx).
  assert (Head : forall x l y l',
             finite_key key x -> finite_key key y ->
             StronglySorted (descending key) (y :: l') ->
             filter (key_is key (key x)) (x :: l) = filter (key_is key (key x)) (y :: l') ->
             SFleb (key x) (key y) = true).
  { intros x l y l' Hx Hy Hs Hf.
    assert (Hin : In x (y :: l')).
    { eapply proj1. apply (filter_In (key_is key (key x))). rewrite <- Hf.
      cbn [filter]. rewrite (Self x Hx). now left. }
    destruct Hin as [->|Hin]; [apply SFleb_refl, finite_nonnan, Hx|].
    inversion Hs as [|? ? _ Hall]; subst.
    rewrite Forall_forall in Hall. exact (Hall x Hin). }
  revert l2. induction l1 as [|x l1 IH]; intros [|y l2] F1 F2 S1 S2 Hf; auto.
  - inversion F2 as [|? ? Hy _]; subst.
    specialize (Hf (key y)). cbn [filter] in Hf. rewrite (Self y Hy) in Hf. discriminate.
  - inversion F1 as [|? ? Hx _]; subst.
    specialize (Hf (key x)). cbn [filter] in Hf. rewrite (Self x Hx) in Hf. discriminate.
  - inversion F1 as [|? ? Hx F1']; inversion F2 as [|? ? Hy F2']; subst.
    assert (Exy : key_is key (key x) y = true).
    { unfold key_is. apply SFleb_antisym.
      - apply (Head y l2 x l1 Hy Hx S1). symmetry. apply Hf.
      - apply (Head x l1 y l2 Hx Hy S2). apply Hf. }
    assert (E : x = y).
    { pose proof (Hf (key x)) as H. cbn [filter] in H.
      rewrite (Self x Hx), Exy in H. now injection H. }
    subst y. f_equal.
    inversion S1; inversion S2; subst. apply IH; auto.
    intros s. specialize (Hf s). cbn [filter] in Hf.
    destruct (key_is key s x); [now injection Hf|exact Hf].
Qed.

(** Every stable descending arrangement of [l] is the one [Array_sort]
    computes. *)
Lemma Array_sort_unique (l l' : list A) :
  Forall (finite_key key) l ->
  Permutation l' l ->
  StronglySorted (descending key) l' ->
  (forall s, filter (key_is key s) l' = filter (key_is key s) l) ->
  l' = Array_sort cmp l.
Proof.
  intros Hl Hp Hs Hf. apply stable_sorted_unique; auto.
  - apply (Permutation_Forall (Permutation_sym Hp)); auto.
  - apply (Permutation_Forall (Permutation_sym (Array_sort_perm l))); auto.
  - now apply Array_sort_sorted.
  - intros s. now rewrite Array_sort_stable.
Qed.

End SortFacts.

Lemma StronglySorted_firstn {A : Type} (R : A -> A -> Prop) (n : nat) (l : list A) :
  StronglySorted R l -> StronglySorted R (firstn n l).
Proof.
  intros H. revert n. induction H as [|x l Hs IH Hx]; intros [|n]; simpl; try constructor; auto.
  apply Forall_forall. intros y Hy. rewrite Forall_forall in Hx.
  apply Hx. rewrite <- (firstn_skipn n l). apply in_or_app. now left.
Qed.

(** ** Vectors of different dimensions *)

Section DimensionFacts.

Lemma step_NaN (q d : vector) (a : acc) (i : nat) :
  dot a = NaN -> dNorm a = NaN ->
  dot (step q d a i) = NaN /\ dNorm (step q d a i) = NaN.
Proof. intros H1 H2. unfold step. cbn [dot dNorm]. now rewrite H1, H2. Qed.

Lemma steps_NaN (q d : vector) (l : list nat) (a : acc) :
  dot a = NaN -> dNorm a = NaN ->
  dot (fold_left (step q d) l a) = NaN /\ dNorm (fold_left (step q d) l a) = NaN.
Proof.
  revert a. induction l as [|i l IH]; intros a H1 H2; simpl; auto.
  destruct (step_NaN q d a i H1 H2). auto.
Qed.

Lemma inner_short (q d : vector) :
  length d < length q ->
  dot (inner q d) = NaN /\ dNorm (inner q d) = NaN.
Proof.
  intros H. unfold inner.
  replace (length q) with (length d + S (length q - length d - 1)) by lia.
  rewrite seq_app, fold_left_app. cbn [seq fold_left plus].
  apply steps_NaN; unfold step, at_index; cbn [dot dNorm];
    rewrite (nth_overflow d NaN (Nat.le_refl _));
    now rewrite ?mul_NaN_r, ?add_NaN_r.
Qed.

Lemma sim_short (q d : vector) : length d < length q -> sim q d = NaN.
Proof.
  intros H. unfold sim. destruct (inner_short q d H) as [-> ->].
  cbn [Math_sqrt SFsqrt]. now rewrite mul_NaN_r.
Qed.

Lemma maxSim_from_NaN (q : vector) (D : list vector) :
  fold_left (fun m dv => Math_max m (sim q dv)) D NaN = NaN.
Proof. induction D; simpl; auto. Qed.

Lemma maxSim_NaN (q d : vector) (D : list vector) :
  In d D -> sim q d = NaN -> maxSim q D = NaN.
Proof.
  intros Hin Hs. unfold maxSim. generalize neg_Infinity.
  induction D as [|d' D IH]; intros m; [contradiction|]. simpl.
  destruct Hin as [->|Hin]; auto.
  rewrite Hs, Math_max_NaN_r. apply maxSim_from_NaN.
Qed.

Lemma total_from_NaN (Q D : list vector) :
  fold_left (fun t qv => (t + maxSim qv D)%js) Q NaN = NaN.
Proof. induction Q; simpl; auto. Qed.

Lemma colbertScore_NaN (q : vector) (Q D : list vector) :
  In q Q -> maxSim q D = NaN -> colbertScore Q D = NaN.
Proof.
  intros Hin Hm. unfold colbertScore.
  assert (E : fold_left (fun t qv => (t + maxSim qv D)%js) Q zero = NaN).
  { generalize zero. induction Q as [|q' Q IH]; intros t; [contradiction|]. simpl.
    destruct Hin as [->|Hin]; auto.
    rewrite Hm, add_NaN_r. apply total_from_NaN. }
  now rewrite E.
Qed.

Lemma at_index_firstn (d : vector) (n i : nat) :
  i < n -> at_index (firstn n d) i = at_index d i.
Proof.
  unfold at_index. revert n i. induction d as [|x d IH]; intros [|n] [|i] H; simpl; auto; try lia.
  apply IH. lia.
Qed.

Lemma steps_firstn (q d : vector) (n : nat) (l : list nat) (a : acc) :
  Forall (fun i => i < n) l ->
  fold_left (step q (firstn n d)) l a = fold_left (step q d) l a.
Proof.
  intros H. revert a. induction H as [|i l Hi Hl IH]; intros a; simpl; auto.
  rewrite IH. f_equal. unfold step. now rewrite at_index_firstn.
Qed.

Lemma sim_firstn (q d : vector) : sim q (firstn (length q) d) = sim q d.
Proof.
  unfold sim, inner. rewrite steps_firstn; auto.
  apply Forall_forall. intros i Hi. apply in_seq in Hi. lia.
Qed.

Lemma maxSim_firstn (q : vector) (D : list vector) :
  maxSim q (map (firstn (length q)) D) = maxSim q D.
Proof.
  unfold maxSim. generalize neg_Infinity.
  induction D as [|d D IH]; intros m; simpl; auto.
  now rewrite sim_firstn, IH.
Qed.

Lemma colbertScore_firstn (n : nat) (Q D : list vector) :
  Forall (fun q => length q = n) Q ->
  colbertScore Q (map (firstn n) D) = colbertScore Q D.
Proof.
  intros H. unfold colbertScore. f_equal. generalize zero.
  induction H as [|q Q Hq HQ IH]; intros t; simpl; auto.
  rewrite IH. do 2 f_equal. subst n. apply maxSim_firstn.
Qed.

End DimensionFacts.

(** ** Runs of the node *)

Lemma run_main_resolved (env : backends) (i : Input.t) d b c sd :
  resolves env i d b c sd ->
  run env (main i) = (full_trace i d b, Returned (output_of i c sd)).
Proof.
  intros (H1 & H2 & H3 & H4). unfold main. cbn [run].
  rewrite H1. cbn [run]. rewrite H2. cbn [run]. rewrite H3. cbn [run]. rewrite H4.
  reflexivity.
Qed.

Lemma run_main_returned (env : backends) (i : Input.t) tr out :
  run env (main i) = (tr, Returned out) ->
  exists d b c sd,
    resolves env i d b c sd /\ tr = full_trace i d b /\ out = output_of i c sd.
Proof.
  unfold main, resolves. cbn [run].
  destruct (env _ (ollama_embeddings _ _)) as [d|] eqn:H1; [|discriminate]. cbn [run].
  destruct (env _ (bm25_embed _)) as [b|] eqn:H2; [|discriminate]. cbn [run].
  destruct (env _ (colbert_embed _)) as [c|] eqn:H3; [|discriminate]. cbn [run].
  destruct (env _ (points_query _ _)) as [sd|] eqn:H4; [|discriminate]. cbn [run].
  intros E. injection E as <- <-. exists d, b, c, sd. auto.
Qed.

Lemma run_main_first (env : backends) (i : Input.t) :
  exists tr,
    fst (run env (main i)) =
    Sent (Request (ollama_embeddings "nomic-embed-text" (Input.query i))) :: tr.
Proof.
  unfold main. cbn [run].
  destruct (env _ (ollama_embeddings _ _)) as [d|]; [|cbn; eauto]. cbn [run].
  destruct (env _ (bm25_embed _)) as [b|]; [|cbn; eauto]. cbn [run].
  destruct (env _ (colbert_embed _)) as [c|]; [|cbn; eauto]. cbn [run].
  destruct (env _ (points_query _ _)) as [sd|]; cbn; eauto.
Qed.

(** ** The reranked list *)

Lemma Array_slice0_firstn {A : Type} (l : list A) (k : number) :
  exists n, Array_slice0 l k = firstn n l.
Proof. unfold Array_slice0. eauto. Qed.

Lemma Array_slice0_length {A : Type} (l : list A) (x : number) :
  is_nan x = false -> lt x zero = false ->
  at_most (length (Array_slice0 l x)) x.
Proof.
  intros Hn Hneg. unfold Array_slice0, at_most.
  destruct x as [s|[|]| |[|] m e]; try discriminate; cbn [ToIntegerOrInfinity cond_Zopp].
  - change (0 <? 0)%Z with false. cbv iota. rewrite length_firstn. lia.
  - reflexivity.
  - assert (H0 : (0 <= Z.shiftl (Zpos m) e)%Z) by (apply Z.shiftl_nonneg; lia).
    destruct (Z.ltb_spec (Z.shiftl (Zpos m) e) 0); [lia|].
    rewrite length_firstn.
    destruct (Z.leb_spec 0 e).
    + rewrite Z.shiftl_mul_pow2 in * by lia. lia.
    + rewrite Z.shiftl_div_pow2 in * by lia.
      assert (Hp : (0 < 2 ^ (- e))%Z) by (apply Z.pow_pos_nonneg; lia).
      pose proof (Z.mul_div_le (Zpos m) (2 ^ (- e)) Hp).
      set (P := (2 ^ (- e))%Z) in *. set (q := (Zpos m / P)%Z) in *.
      assert (Hq : (Z.of_nat (Nat.min (Z.to_nat (Z.min q (Z.of_nat (length l)))) (length l)) <= q)%Z) by lia.
      nia.
Qed.

Lemma topK_not_nan (i : Input.t) : is_nan (topK i) = false.
Proof.
  unfold topK, or_else, truthy. destruct (Input.top_k i) as [k|]; [|reflexivity].
  destruct k as [s|s| |s m e]; try reflexivity; destruct s; reflexivity.
Qed.

Lemma topK_default (i : Input.t) :
  Input.top_k i = None \/ (exists k, Input.top_k i = Some k /\ (k === zero)%js = true) ->
  topK i = lit_3.
Proof.
  unfold topK, or_else, truthy. intros [->|(k & -> & Hk)]; [reflexivity|].
  now rewrite Hk, orb_true_r.
Qed.

Lemma In_firstn {A : Type} (n : nat) (l : list A) (x : A) : In x (firstn n l) -> In x l.
Proof. intros H. rewrite <- (firstn_skipn n l). apply in_or_app. now left. Qed.

Lemma by_final_score_key (a b : Result.t) :
  finite (Result.final_score a) = true -> finite (Result.final_score b) = true ->
  goes_after by_final_score a b = SFltb (Result.final_score a) (Result.final_score b).
Proof. intros Ha Hb. unfold goes_after, by_final_score. now apply sub_sign. Qed.

Lemma results_from_candidate (Q : list vector) (cands : list Point.t) (k : number) (r : Result.t) :
  In r (results Q cands k) ->
  exists c, In c cands /\ has_colbert c = true /\ r = to_result Q c.
Proof.
  unfold results. intros H.
  destruct (Array_slice0_firstn (Array_sort by_final_score
              (map (to_result Q) (filter has_colbert cands))) k) as [n E].
  rewrite E in H. apply In_firstn in H.
  apply (Permutation_in _ (Array_sort_perm by_final_score _)) in H.
  apply in_map_iff in H. destruct H as (c & <- & Hc).
  apply filter_In in Hc. destruct Hc. eauto.
Qed.

Lemma NoDup_map_eq {A B : Type} (f : A -> B) (l : list A) (a b : A) :
  NoDup (map f l) -> In a l -> In b l -> f a = f b -> a = b.
Proof.
  induction l as [|x l IH]; simpl; [contradiction|].
  intros Hnd Ha Hb E. inversion Hnd as [|? ? Hx Hl]; subst.
  destruct Ha as [->|Ha], Hb as [->|Hb]; auto.
  - exfalso. apply Hx. rewrite E. now apply in_map.
  - exfalso. apply Hx. rewrite <- E. now apply in_map.
Qed.

(** ** The claims *)




(** The scenario of the specification: query vectors [[1,0],[0,1]] against
    the stored vectors [[1,0]] score [0.5]. *)
Example colbertScore_sample :
  colbertScore sample_query_vectors [[one; zero]] = half.
Proof. vm_compute. reflexivity. Qed.

(** C2, as stated, fails: a candidate stored with an empty sequence of
    vectors passes the filter and is returned (scored [-Infinity]). *)
Lemma empty_vectors_kept :
  (exists p, Point.payload point_empty = Some p /\ Point.colbert_embedding p = Some []) /\
  exists tr out,
    run (sample_backends sample_query_vectors (with_points [point_A; point_empty]))
        (main (sample_input "q" None)) = (tr, Returned out) /\
    In (Point.id point_empty) (map Result.id (Output.results out)).
Proof.
  split; [eexists; split; reflexivity|]. eexists. eexists. split.
  - apply run_main_resolved. repeat split; reflexivity.
  - vm_compute. tauto.
Qed.

(** C2, amended. Every candidate whose payload or whose stored
    late-interaction vectors are absent is dropped before scoring: every
    result is the score of a candidate that has stored vectors, and among
    candidates with distinct ids the reranked list contains the id of no
    candidate without them. *)
Theorem absent_vectors_dropped (Q : list vector) (cands : list Point.t) (k : number) :
  (forall r, In r (results Q cands k) ->
     exists c p v, In c cands /\ Point.payload c = Some p /\
                   Point.colbert_embedding p = Some v /\ r = to_result Q c) /\
  (NoDup (map Point.id cands) ->
   forall c, In c cands ->
     (Point.payload c = None \/
      exists p, Point.payload c = Some p /\ Point.colbert_embedding p = None) ->
     ~ In (Point.id c) (map Result.id (results Q cands k))).
Proof.
  split.
  - intros r Hr. apply results_from_candidate in Hr.
    destruct Hr as (c & Hc & Hk & ->). unfold has_colbert in Hk.
    destruct (Point.payload c) as [p|] eqn:Ep; [|discriminate].
    destruct (Point.colbert_embedding p) as [v|] eqn:Ev; [|discriminate].
    exists c, p, v. auto.
  - intros Hnd c Hc Habs Hin.
    apply in_map_iff in Hin. destruct Hin as (r & Hid & Hr).
    apply results_from_candidate in Hr. destruct Hr as (c' & Hc' & Hk & ->).
    cbn [to_result Result.id] in Hid.
    rewrite (NoDup_map_eq Point.id cands c' c Hnd Hc' Hc Hid) in Hk.
    unfold has_colbert in Hk.
    destruct Habs as [E|(p & E & E')]; rewrite E in Hk; [|rewrite E' in Hk]; discriminate.
Qed.

Lemma absent_vectors_dropped_witness :
  ~ In (Point.id point_absent)
       (map Result.id
          (results sample_query_vectors [point_A; point_absent; point_bare] lit_3)).
Proof.
  refine (proj2 (absent_vectors_dropped sample_query_vectors
                   [point_A; point_absent; point_bare] lit_3) _ point_absent _ _).
  - repeat constructor; cbn; intuition discriminate.
  - cbn. tauto.
  - right. eexists. split; reflexivity.
Defined.

(** C3, as stated, fails: with query vectors of dimension 128 and a stored
    vector of dimension 64 the node returns, the candidate scored NaN. *)
Lemma dimension_mismatch_returns :
  exists tr out r,
    run (sample_backends query_128 (with_points [point_64]))
        (main (sample_input "q" None)) = (tr, Returned out) /\
    Output.results out = [r] /\
    Result.id r = Point.id point_64 /\
    Result.colbert_score r = NaN.
Proof.
  do 3 eexists. split; [|split; [|split]].
  - apply run_main_resolved. repeat split; reflexivity.
  - vm_compute. reflexivity.
  - reflexivity.
  - reflexivity.
Qed.

(** C3, amended. Vectors of different dimensions raise no error: the
    score is NaN as soon as a stored vector is shorter than a query vector,
    and components of stored vectors beyond the dimension of the query
    vectors are not read. *)
Theorem mismatched_dimensions (Q D : list vector) (q d : vector) :
  In q Q -> In d D -> length d <> length q ->
  (length d < length q -> colbertScore Q D = NaN) /\
  (Forall (fun q' => length q' = length q) Q ->
   colbertScore Q D = colbertScore Q (map (firstn (length q)) D)).
Proof.
  intros Hq Hd _. split.
  - intros Hlt. apply (colbertScore_NaN q); auto.
    apply (maxSim_NaN q d); auto. now apply sim_short.
  - intros HQ. symmetry. now apply colbertScore_firstn.
Qed.

Lemma mismatched_dimensions_witness :
  colbertScore query_128 [repeat one 64] = NaN.
Proof.
  refine (proj1 (mismatched_dimensions query_128 [repeat one 64]
                   (repeat one 128) (repeat one 64) _ _ _) _).
  - cbn. tauto.
  - cbn. tauto.
  - rewrite !repeat_length. lia.
  - rewrite !repeat_length. lia.
Defined.

(** C4. Every returned result has
    [final_score = hybrid_score * 0.4 + colbert_score * 0.6], where
    [hybrid_score] is the fused score of its candidate and [colbert_score]
    its late-interaction score.  With fused score 0.85 and late-interaction
    score 0.92 the final score is the double [m * 2^-53] that lies within
    [2^-52] of 0.892 (the sum [0.85*0.4 + 0.92*0.6] as doubles round it). *)
Theorem final_score_is_weighted_sum (Q : list vector) (cands : list Point.t) (k : number)
  (r : Result.t) :
  In r (results Q cands k) ->
  Result.final_score r
  = (Result.hybrid_score r * lit_0_4 + Result.colbert_score r * lit_0_6)%js /\
  (exists c, In c cands /\
     Result.hybrid_score r = Point.score c /\
     Result.colbert_score r = colbertScore Q (stored_colbert c)) /\
  (Result.hybrid_score r = lit_0_85 -> Result.colbert_score r = lit_0_92 ->
   exists m, Result.final_score r = S754_finite false m (-53) /\
             (Z.abs (1000 * Zpos m - 892 * 2 ^ 53) < 2 * 1000)%Z).
Proof.
  intros H. apply results_from_candidate in H. destruct H as (c & Hc & _ & ->).
  cbn [to_result Result.final_score Result.hybrid_score Result.colbert_score].
  split; [reflexivity|]. split; [eauto|].
  intros -> ->. eexists. split; [vm_compute; reflexivity|]. vm_compute. reflexivity.
Qed.

Lemma final_score_is_weighted_sum_witness :
  In (to_result query_23_of_25 point_G) (results query_23_of_25 [point_G] lit_3) /\
  Result.hybrid_score (to_result query_23_of_25 point_G) = lit_0_85 /\
  Result.colbert_score (to_result query_23_of_25 point_G) = lit_0_92 /\
  exists m,
    Result.final_score (to_result query_23_of_25 point_G) = S754_finite false m (-53) /\
    (Z.abs (1000 * Zpos m - 892 * 2 ^ 53) < 2 * 1000)%Z.
Proof.
  assert (H : In (to_result query_23_of_25 point_G) (results query_23_of_25 [point_G] lit_3))
    by (left; vm_compute; reflexivity).
  assert (Hh : Result.hybrid_score (to_result query_23_of_25 point_G) = lit_0_85)
    by reflexivity.
  assert (Hc : Result.colbert_score (to_result query_23_of_25 point_G) = lit_0_92)
    by (vm_compute; reflexivity).
  split; [exact H|]. split; [exact Hh|]. split; [exact Hc|].
  exact (proj2 (proj2 (final_score_is_weighted_sum query_23_of_25 [point_G] lit_3 _ H)) Hh Hc).
Defined.

(** The scenario of the specification on the machine's own doubles: the
    arithmetic above gives the value the hardware computes. *)
Example final_score_sample :
  SF2Prim (lit_0_85 * lit_0_4 + lit_0_92 * lit_0_6)%js
  = (0.85 * 0.4 + 0.92 * 0.6)%float.
Proof. vm_compute. reflexivity. Qed.

(** C5, as stated, fails: candidates "B" and "A" with equal final and
    late-interaction scores, retrieved in this order, are returned in this
    order, not by ascending id. *)
Lemma ties_not_broken_by_id :
  map Result.id (results sample_query_vectors [point_B; point_A] lit_3) = ["B"; "A"]%string /\
  specified_order (results sample_query_vectors [point_B; point_A] lit_3) = false.
Proof. split; vm_compute; reflexivity. Qed.

(** C5, amended. Where the final scores are finite, the reranked list is
    sorted descending by final score, and results of equal final score stay
    in the order in which their candidates were retrieved: for every score
    [s], the results of score [s] are an initial part of the candidates'
    results of score [s], in retrieval order.  The output is thereby
    determined by final score and retrieval order: it is the cut to [topK] of
    any descending, tie-preserving arrangement of the scored candidates.
    Neither the late-interaction score nor the id breaks a tie. *)
Theorem results_sorted_stable (Q : list vector) (cands : list Point.t) (k : number) :
  Forall (fun r => finite (Result.final_score r) = true)
         (map (to_result Q) (filter has_colbert cands)) ->
  StronglySorted
    (fun a b => SFleb (Result.final_score b) (Result.final_score a) = true)
    (results Q cands k) /\
  (forall s, exists rest,
     filter (fun r => (Result.final_score r === s)%js) (results Q cands k) ++ rest
     = filter (fun r => (Result.final_score r === s)%js)
              (map (to_result Q) (filter has_colbert cands))) /\
  (forall l,
     Permutation l (map (to_result Q) (filter has_colbert cands)) ->
     StronglySorted
       (fun a b => SFleb (Result.final_score b) (Result.final_score a) = true) l ->
     (forall s,
        filter (fun r => (Result.final_score r === s)%js) l
        = filter (fun r => (Result.final_score r === s)%js)
                 (map (to_result Q) (filter has_colbert cands))) ->
     results Q cands k = Array_slice0 l k).
Proof.
  intros Hf. unfold results.
  set (scored := map (to_result Q) (filter has_colbert cands)) in *.
  split; [|split].
  - destruct (Array_slice0_firstn (Array_sort by_final_score scored) k) as [n ->].
    apply StronglySorted_firstn.
    apply (Array_sort_sorted by_final_score Result.final_score by_final_score_key).
    exact Hf.
  - intros s.
    destruct (Array_slice0_firstn (Array_sort by_final_score scored) k) as [n ->].
    exists (filter (fun r => (Result.final_score r === s)%js)
                   (skipn n (Array_sort by_final_score scored))).
    rewrite <- filter_app, firstn_skipn.
    apply (Array_sort_stable by_final_score Result.final_score by_final_score_key s).
    exact Hf.
  - intros l Hp Hs Hst. f_equal. symmetry.
    apply (Array_sort_unique by_final_score Result.final_score by_final_score_key);
      auto.
Qed.

Lemma results_sorted_stable_witness :
  StronglySorted
    (fun a b => SFleb (Result.final_score b) (Result.final_score a) = true)
    (results sample_query_vectors [point_B; point_A; point_absent] lit_3).
Proof.
  refine (proj1 (results_sorted_stable sample_query_vectors
                   [point_B; point_A; point_absent] lit_3 _)).
  repeat constructor.
Defined.

(** C6, as stated, fails: with an empty query and [top_k = -1] the node is
    not rejected up front; it sends the embedding request for the empty
    text first and, the backends answering, returns. *)
Lemma empty_query_is_sent :
  ~ rejected_up_front
      (run (sample_backends sample_query_vectors (with_points [point_A]))
           (main (sample_input "" (Some minus_one)))) /\
  exists tr out,
    run (sample_backends sample_query_vectors (with_points [point_A]))
        (main (sample_input "" (Some minus_one)))
    = (Sent (Request (ollama_embeddings "nomic-embed-text" "")) :: tr, Returned out).
Proof.
  split.
  - intros [e H]. vm_compute in H. discriminate.
  - do 2 eexists. vm_compute. reflexivity.
Qed.

(** C6, amended. The node validates nothing before its network calls: for
    every input, whatever the query and [top_k], it throws no error before
    a request is sent, its first action being the dense embedding request
    for the query as given; a [top_k] of [0] is replaced by the default
    [3]. *)
Theorem no_input_validation (env : backends) (i : Input.t) :
  ~ rejected_up_front (run env (main i)) /\
  (exists tr,
     fst (run env (main i))
     = Sent (Request (ollama_embeddings "nomic-embed-text" (Input.query i))) :: tr) /\
  (forall k, Input.top_k i = Some k -> (k === zero)%js = true -> topK i = lit_3).
Proof.
  destruct (run_main_first env i) as [tr Htr]. split; [|split].
  - intros [e H]. rewrite H in Htr. discriminate.
  - eauto.
  - intros k Hk Hz. apply topK_default. eauto.
Qed.

Lemma no_input_validation_witness :
  topK (sample_input "" (Some zero)) = lit_3.
Proof.
  refine (proj2 (proj2 (no_input_validation
                          (sample_backends sample_query_vectors (with_points [point_A]))
                          (sample_input "" (Some zero)))) zero _ _); reflexivity.
Defined.

Lemma returned_limits (env : backends) (i : Input.t) (tr : list event) (out : Output.t) :
  run env (main i) = (tr, Returned out) ->
  (exists e, In e tr /\
     index_limits e
     = Some ((topK i * lit_5)%js, [(topK i * lit_5)%js; (topK i * lit_5)%js])) /\
  (lt (topK i) zero = false -> at_most (length (Output.results out)) (topK i)).
Proof.
  intros H. apply run_main_returned in H.
  destruct H as (d & b & c & sd & _ & -> & ->). split.
  - exists (Sent (Request (points_query (collectionName i)
                            (searchBody (embedding d) (embedding b) (topK i))))).
    split; [|reflexivity]. unfold full_trace. cbn. tauto.
  - intros Hk. cbn [output_of Output.results]. unfold results.
    apply Array_slice0_length; [apply topK_not_nan|exact Hk].
Qed.

(** C7, as stated, fails for a negative [top_k]: with [top_k = -1] and two
    candidates, [slice(0, -1)] keeps one result, more than [topK]. *)
Lemma negative_topK_not_truncated :
  exists tr out,
    run (sample_backends sample_query_vectors (with_points [point_A; point_B]))
        (main (sample_input "q" (Some minus_one))) = (tr, Returned out) /\
    length (Output.results out) = 1 /\
    ~ at_most (length (Output.results out)) (topK (sample_input "q" (Some minus_one))).
Proof.
  do 2 eexists. split; [|split].
  - apply run_main_resolved. repeat split; reflexivity.
  - vm_compute. reflexivity.
  - vm_compute. intros H. now apply H.
Qed.

(** C7, amended. The index is asked for [topK * 5] fused candidates, the
    product of the two numbers as the source computes it, with the same
    limit on each of the two prefetch channels; the candidates of its
    answer are reranked and the list is cut with [slice(0, topK)]: for every
    input whose [topK] is not negative the output has at most [topK]
    results. *)
Theorem over_fetch_and_truncate (env : backends) (i : Input.t)
  (tr : list event) (out : Output.t) :
  run env (main i) = (tr, Returned out) ->
  (exists e, In e tr /\
     index_limits e
     = Some ((topK i * lit_5)%js, [(topK i * lit_5)%js; (topK i * lit_5)%js])) /\
  (exists d b c sd,
     resolves env i d b c sd /\
     Output.results out = results (embedding c) (candidates sd) (topK i) /\
     Output.num_candidates out = length (candidates sd)) /\
  Output.num_results out = length (Output.results out) /\
  (lt (topK i) zero = false -> at_most (length (Output.results out)) (topK i)).
Proof.
  intros H. destruct (returned_limits env i tr out H) as (Hl & Hlen).
  apply run_main_returned in H.
  destruct H as (d & b & c & sd & Hr & -> & ->).
  split; [exact Hl|]. split; [|split; [reflexivity|exact Hlen]].
  exists d, b, c, sd. auto.
Qed.

Lemma over_fetch_and_truncate_witness :
  exists tr out,
    run (sample_backends sample_query_vectors (with_points [point_A; point_B]))
        (main (sample_input "q" (Some one))) = (tr, Returned out) /\
    at_most (length (Output.results out)) (topK (sample_input "q" (Some one))).
Proof.
  assert (H : run (sample_backends sample_query_vectors (with_points [point_A; point_B]))
                  (main (sample_input "q" (Some one)))
              = (full_trace (sample_input "q" (Some one))
                   {| embedding := [one] |}
                   {| embedding := {| indices := [1%Z]; values := [one] |} |},
                 Returned (output_of (sample_input "q" (Some one))
                             {| embedding := sample_query_vectors |}
                             (with_points [point_A; point_B])))).
  { apply run_main_resolved. repeat split; reflexivity. }
  do 2 eexists. split; [exact H|].
  destruct (over_fetch_and_truncate _ _ _ _ H) as (_ & _ & _ & Hlen).
  apply Hlen. reflexivity.
Defined.

(** The limits are products of doubles: for [top_k = 3602879701896397] the
    index is asked for [18014398509481984] candidates, the double nearest
    to the product [18014398509481985]. *)
Example limit_is_rounded :
  limit (searchBody [one] {| indices := [1%Z]; values := [one] |}
           (topK (sample_input "q" (Some lit_3602879701896397))))
  = lit_18014398509481984.
Proof. vm_compute. reflexivity. Qed.

(** C8, as stated, fails: the three embedding requests are not in flight
    together; the first has settled before the second is sent. *)
Lemma embeddings_not_sent_together :
  sent_together
    (fst (run (sample_backends sample_query_vectors (with_points [point_A]))
              (main (sample_input "q" None)))) = false.
Proof. vm_compute. reflexivity. Qed.

(** C8, amended. The three embedding requests are issued one after
    another, dense, then sparse, then late-interaction, each sent only after
    the one before has resolved; the index query is sent after all three. *)
Theorem embeddings_requested_in_turn (env : backends) (i : Input.t)
  (d : embedded (list number)) (b : embedded sparse) (c : embedded (list vector)) :
  env _ (ollama_embeddings "nomic-embed-text" (Input.query i)) = Some d ->
  env _ (bm25_embed (Input.query i)) = Some b ->
  env _ (colbert_embed (Input.query i)) = Some c ->
  exists rest,
    fst (run env (main i))
    = [ Sent (Request (ollama_embeddings "nomic-embed-text" (Input.query i))); Resolved;
        Sent (Request (bm25_embed (Input.query i))); Resolved;
        Sent (Request (colbert_embed (Input.query i))); Resolved;
        Sent (Request (points_query (collectionName i)
                         (searchBody (embedding d) (embedding b) (topK i)))) ]
      ++ rest.
Proof.
  intros H1 H2 H3. unfold main. cbn [run].
  rewrite H1. cbn [run]. rewrite H2. cbn [run]. rewrite H3. cbn [run].
  destruct (env _ (points_query _ _)); cbn; eauto.
Qed.

Lemma embeddings_requested_in_turn_witness :
  exists rest,
    fst (run (sample_backends sample_query_vectors (with_points [point_A]))
             (main (sample_input "q" None)))
    = [ Sent (Request (ollama_embeddings "nomic-embed-text" "q")); Resolved;
        Sent (Request (bm25_embed "q")); Resolved;
        Sent (Request (colbert_embed "q")); Resolved;
        Sent (Request (points_query "hybrid_demo"
                         (searchBody [one] {| indices := [1%Z]; values := [one] |} lit_3))) ]
      ++ rest.
Proof.
  apply (embeddings_requested_in_turn
           (sample_backends sample_query_vectors (with_points [point_A]))
           (sample_input "q" None)
           {| embedding := [one] |}
           {| embedding := {| indices := [1%Z]; values := [one] |} |}
           {| embedding := sample_query_vectors |}); reflexivity.
Defined.

(** C9. When the index response lacks the result object or its points, and
    all requests resolve, the node returns normally with no results:
    [results = []], [num_results = 0] and [num_candidates = 0]. *)
Theorem missing_points_give_no_results (env : backends) (i : Input.t)
  d b c (sd : search_data) :
  resolves env i d b c sd ->
  (result sd = None \/ exists r, result sd = Some r /\ points r = None) ->
  exists tr out,
    run env (main i) = (tr, Returned out) /\
    Output.results out = [] /\
    Output.num_results out = 0 /\
    Output.num_candidates out = 0.
Proof.
  intros Hr Hsd. do 2 eexists. split; [apply (run_main_resolved env i d b c sd Hr)|].
  assert (E : candidates sd = []).
  { unfold candidates. destruct Hsd as [->|(r & -> & ->)]; reflexivity. }
  cbn [output_of Output.results Output.num_results Output.num_candidates].
  rewrite E. unfold results, Array_slice0. cbn.
  rewrite firstn_nil. auto.
Qed.

Lemma missing_points_give_no_results_witness :
  exists tr out,
    run (sample_backends sample_query_vectors {| result := None |})
        (main (sample_input "q" None)) = (tr, Returned out) /\
    Output.results out = [] /\
    Output.num_results out = 0 /\
    Output.num_candidates out = 0.
Proof.
  apply (missing_points_give_no_results
           (sample_backends sample_query_vectors {| result := None |})
           (sample_input "q" None)
           {| embedding := [one] |}
           {| embedding := {| indices := [1%Z]; values := [one] |} |}
           {| embedding := sample_query_vectors |}
           {| result := None |}).
  - repeat split; reflexivity.
  - left. reflexivity.
Defined.



(** ** Further properties of the search node *)

Lemma Math_max_comm (a b : number) : Math_max a b = Math_max b a.
Proof.
  unfold Math_max, lt, SFltb.
  by_cases a; by_cases b; simpl; try reflexivity; split_compare.
Qed.

Lemma Math_max_assoc (a b c : number) :
  Math_max (Math_max a b) c = Math_max a (Math_max b c).
Proof.
  unfold Math_max, lt, SFltb.
  by_cases a; by_cases b; simpl; try reflexivity;
    by_cases c; simpl; try reflexivity; split_compare.
Qed.

Lemma fold_max_perm (l l' : list number) (a : number) :
  Permutation l l' -> fold_left Math_max l a = fold_left Math_max l' a.
Proof.
  intros H. revert a. induction H as [|x l l' H IH|x y l|l l' l'' H1 IH1 H2 IH2]; intros a; simpl; auto.
  - rewrite !Math_max_assoc, (Math_max_comm y x). reflexivity.
  - now rewrite IH1.
Qed.

Lemma maxSim_perm (q : vector) (D D' : list vector) :
  Permutation D D' -> maxSim q D = maxSim q D'.
Proof.
  intros H. unfold maxSim.
  rewrite !(fold_left_map Math_max (sim q)).
  apply fold_max_perm. now apply Permutation_map.
Qed.

(** X1. The late-interaction score does not depend on the order of the
    stored token vectors: reordering [dVecs] leaves [colbertScore] (and each
    per-token maximum) unchanged, NaN and signed zeros included. *)
Theorem colbertScore_document_order (Q D D' : list vector) :
  Permutation D D' ->
  colbertScore Q D = colbertScore Q D' /\
  forall q, maxSim q D = maxSim q D'.
Proof.
  intros H. split; [|intros q; now apply maxSim_perm].
  unfold colbertScore. f_equal. generalize zero.
  induction Q as [|q Q IH]; intros t; simpl; auto.
  now rewrite IH, (maxSim_perm q D D' H).
Qed.

Lemma colbertScore_document_order_witness :
  colbertScore sample_query_vectors [[one; zero]; [zero; one]]
  = colbertScore sample_query_vectors [[zero; one]; [one; zero]].
Proof.
  refine (proj1 (colbertScore_document_order sample_query_vectors
                   [[one; zero]; [zero; one]] [[zero; one]; [one; zero]] _)).
  apply perm_swap.
Defined.

(** Array lengths are doubles held exactly. *)

Section Lengths.
Local Open Scope Z_scope.

Lemma binary_round_aux_canonical (s : bool) (m : positive) (e : Z) :
  fexp prec emax (Zpos (digits2_pos m) + e) = e -> e <= emax - prec ->
  binary_round_aux prec emax s (Zpos m) e loc_Exact = S754_finite s m e.
Proof.
  intros Hc He. unfold binary_round_aux, shr_fexp. cbn [Zdigits2].
  rewrite Hc, Z.sub_diag. cbn [shr shr_record_of_loc shr_m loc_of_shr_record round_nearest_even Zdigits2].
  rewrite Hc, Z.sub_diag. cbn [shr shr_record_of_loc shr_m].
  apply Z.leb_le in He. now rewrite He.
Qed.

Lemma digits2_iter_xO (m d : positive) :
  Zpos (digits2_pos (Pos.iter xO m d)) = Zpos (digits2_pos m) + Zpos d.
Proof.
  induction d as [|d IH] using Pos.peano_ind.
  - simpl. lia.
  - rewrite Pos.iter_succ. cbn [digits2_pos]. lia.
Qed.

Lemma of_nat_finite (n : nat) :
  (0 < n)%nat -> Z.of_nat n < 2 ^ 53 ->
  exists m e, of_nat n = S754_finite false m e.
Proof.
  intros Hn Hb. unfold of_nat.
  destruct (Z.of_nat n) as [|p|p] eqn:E; try lia. cbn [binary_normalize].
  unfold binary_round.
  pose proof (digits2_bounds p) as Hd.
  set (d := Zpos (digits2_pos p)) in *.
  assert (Hd53 : d <= 53).
  { destruct (Z.le_gt_cases d 53) as [|G]; auto.
    assert (2 ^ 53 <= 2 ^ (d - 1)) by (apply Z.pow_le_mono_r; lia). lia. }
  assert (F : fexp prec emax (d + 0) = d - 53).
  { unfold fexp. change (SpecFloat.emin prec emax) with (-1074). change prec with 53. lia. }
  rewrite F. unfold shl_align.
  destruct (d - 53 - 0) as [|k|k] eqn:K; try lia.
  - eexists. eexists. apply binary_round_aux_canonical.
    + fold d. unfold fexp. change (SpecFloat.emin prec emax) with (-1074). change prec with 53. lia.
    + change (emax - prec) with 971. lia.
  - eexists. eexists. apply binary_round_aux_canonical.
    + rewrite digits2_iter_xO. fold d. unfold fexp.
      change (SpecFloat.emin prec emax) with (-1074). change prec with 53. lia.
    + change (emax - prec) with 971. lia.
Qed.

End Lengths.

Lemma total_neg_Infinity (Q : list vector) (t : number) :
  Q <> [] -> Number_isFinite t = true ->
  fold_left (fun t qv => (t + maxSim qv [])%js) Q t = neg_Infinity.
Proof.
  intros HQ Ht. destruct Q as [|q Q]; [congruence|]. cbn [fold_left maxSim].
  assert (E : (t + neg_Infinity)%js = neg_Infinity) by (now destruct t).
  rewrite E. clear. induction Q as [|q' Q IH]; auto.
Qed.

Lemma colbertScore_no_documents (Q : list vector) :
  Q <> [] -> (Z.of_nat (length Q) < 2 ^ 53)%Z -> colbertScore Q [] = neg_Infinity.
Proof.
  intros HQ Hb. unfold colbertScore.
  rewrite total_neg_Infinity by auto.
  destruct (of_nat_finite (length Q)) as (m & e & ->); auto.
  destruct Q; [congruence|simpl; lia].
Qed.

(** X2. With nothing to compare the score is no similarity at all: for a
    non-empty query and no stored vectors [colbertScore] is [-Infinity]
    ([maxSim] never leaves its initial value), and for an empty query it is
    NaN ([0 / 0]), whatever the stored vectors. *)
Theorem colbertScore_of_nothing (Q : list vector) :
  Q <> [] -> (Z.of_nat (length Q) < 2 ^ 53)%Z ->
  colbertScore Q [] = neg_Infinity /\ forall D, colbertScore [] D = NaN.
Proof.
  intros HQ Hb. split; [now apply colbertScore_no_documents|reflexivity].
Qed.

Lemma colbertScore_of_nothing_witness :
  colbertScore sample_query_vectors [] = neg_Infinity.
Proof.
  refine (proj1 (colbertScore_of_nothing sample_query_vectors _ _)).
  - discriminate.
  - cbn. lia.
Defined.

(** X3. A candidate stored with an empty list of vectors is scored
    [-Infinity]: its [colbert_score] and, its weighted fused score being
    finite, its [final_score] are both [-Infinity]. *)
Theorem empty_vectors_score_last (Q : list vector) (c : Point.t) :
  Q <> [] -> (Z.of_nat (length Q) < 2 ^ 53)%Z ->
  stored_colbert c = [] ->
  Number_isFinite (Point.score c * lit_0_4)%js = true ->
  Result.colbert_score (to_result Q c) = neg_Infinity /\
  Result.final_score (to_result Q c) = neg_Infinity.
Proof.
  intros HQ Hb Hc Hs. cbn [to_result Result.colbert_score Result.final_score].
  rewrite Hc. rewrite (colbertScore_no_documents Q HQ Hb).
  split; [reflexivity|].
  change (neg_Infinity * lit_0_6)%js with neg_Infinity.
  now destruct (Point.score c * lit_0_4)%js.
Qed.

Lemma empty_vectors_score_last_witness :
  Result.colbert_score (to_result sample_query_vectors point_empty) = neg_Infinity /\
  Result.final_score (to_result sample_query_vectors point_empty) = neg_Infinity.
Proof.
  apply empty_vectors_score_last.
  - discriminate.
  - cbn. lia.
  - reflexivity.
  - vm_compute. reflexivity.
Defined.

Lemma StronglySorted_app_inv {A : Type} (R : A -> A -> Prop) (l1 l2 : list A) :
  StronglySorted R (l1 ++ l2) -> forall a b, In a l1 -> In b l2 -> R a b.
Proof.
  induction l1 as [|x l1 IH]; simpl; intros H a b Ha Hb; [contradiction|].
  inversion H as [|? ? Hs Hall]; subst.
  destruct Ha as [->|Ha]; [|eauto].
  rewrite Forall_forall in Hall. apply Hall. apply in_or_app. now right.
Qed.

(** X4. The cut keeps the best: with finite final scores, every scored
    candidate that is not returned has a final score no higher than that of
    every result that is. *)
Theorem results_keep_the_best (Q : list vector) (cands : list Point.t) (k : number)
  (r s : Result.t) :
  Forall (fun r => finite (Result.final_score r) = true)
         (map (to_result Q) (filter has_colbert cands)) ->
  In r (results Q cands k) ->
  In s (map (to_result Q) (filter has_colbert cands)) ->
  ~ In s (results Q cands k) ->
  SFleb (Result.final_score s) (Result.final_score r) = true.
Proof.
  intros Hf Hr Hs Hn. unfold results in *.
  set (scored := map (to_result Q) (filter has_colbert cands)) in *.
  destruct (Array_slice0_firstn (Array_sort by_final_score scored) k) as [n E].
  rewrite E in *.
  pose proof (Array_sort_sorted by_final_score Result.final_score by_final_score_key
                scored Hf) as Hsorted.
  rewrite <- (firstn_skipn n (Array_sort by_final_score scored)) in Hsorted.
  apply (StronglySorted_app_inv _ _ _ Hsorted r s Hr).
  apply (Permutation_in _ (Permutation_sym (Array_sort_perm by_final_score scored))) in Hs.
  rewrite <- (firstn_skipn n (Array_sort by_final_score scored)) in Hs.
  apply in_app_or in Hs. tauto.
Qed.

Lemma results_keep_the_best_witness :
  SFleb (Result.final_score (to_result sample_query_vectors point_A))
        (Result.final_score (to_result sample_query_vectors point_G)) = true.
Proof.
  apply (results_keep_the_best sample_query_vectors [point_A; point_G] one
           (to_result sample_query_vectors point_G)
           (to_result sample_query_vectors point_A)).
  - repeat constructor.
  - vm_compute. left. reflexivity.
  - vm_compute. left. reflexivity.
  - vm_compute. intros [H|[]]. discriminate.
Defined.

Lemma Array_slice0_all {A : Type} (l : list A) (x : number) :
  at_most (length l) x -> Array_slice0 l x = l.
Proof.
  unfold at_most, Array_slice0.
  destruct x as [s|[|]| |[|] m e]; cbn [ToIntegerOrInfinity cond_Zopp]; intros H;
    try contradiction; try discriminate.
  - change (0 <? 0)%Z with false. cbv iota.
    destruct l; [reflexivity|cbn [length] in H; lia].
  - rewrite Nat2Z.id. apply firstn_all.
  - exfalso. destruct (Z.leb_spec 0 e).
    + assert (0 < 2 ^ e)%Z by (apply Z.pow_pos_nonneg; lia). nia.
    + lia.
  - assert (H0 : (0 <= Z.shiftl (Zpos m) e)%Z) by (apply Z.shiftl_nonneg; lia).
    destruct (Z.ltb_spec (Z.shiftl (Zpos m) e) 0); [lia|].
    assert (Hle : (Z.of_nat (length l) <= Z.shiftl (Zpos m) e)%Z).
    { destruct (Z.leb_spec 0 e).
      - rewrite Z.shiftl_mul_pow2 by lia. exact H.
      - rewrite Z.shiftl_div_pow2 by lia.
        apply Z.div_le_lower_bound; [apply Z.pow_pos_nonneg; lia|lia]. }
    rewrite Z.min_r by lia. rewrite Nat2Z.id. apply firstn_all.
Qed.

Lemma Array_slice0_length_eq {A B : Type} (l : list A) (l' : list B) (x : number) :
  length l = length l' -> length (Array_slice0 l x) = length (Array_slice0 l' x).
Proof. intros H. unfold Array_slice0. rewrite !length_firstn, H. reflexivity. Qed.

(** X5. Nothing is lost when [topK] is large enough: if at least as many
    results are asked for as there are candidates with stored vectors, the
    output is a rearrangement of the scores of all of them. *)
Theorem results_complete (Q : list vector) (cands : list Point.t) (k : number) :
  at_most (length (filter has_colbert cands)) k ->
  Permutation (results Q cands k) (map (to_result Q) (filter has_colbert cands)).
Proof.
  intros H. unfold results. rewrite Array_slice0_all.
  - apply Array_sort_perm.
  - rewrite (Permutation_length (Array_sort_perm by_final_score _)), length_map. exact H.
Qed.

Lemma results_complete_witness :
  Permutation (results sample_query_vectors [point_A; point_absent; point_G] lit_3)
              (map (to_result sample_query_vectors)
                   (filter has_colbert [point_A; point_absent; point_G])).
Proof.
  apply results_complete. vm_compute. discriminate.
Defined.

Lemma NoDup_firstn {A : Type} (n : nat) (l : list A) : NoDup l -> NoDup (firstn n l).
Proof.
  intros H. rewrite <- (firstn_skipn n l) in H. now apply NoDup_app_remove_r in H.
Qed.

(** X6. No document is returned twice: if the candidates have distinct
    ids, so have the results. *)
Theorem results_ids_distinct (Q : list vector) (cands : list Point.t) (k : number) :
  NoDup (map Point.id cands) -> NoDup (map Result.id (results Q cands k)).
Proof.
  intros H. unfold results.
  destruct (Array_slice0_firstn (Array_sort by_final_score
              (map (to_result Q) (filter has_colbert cands))) k) as [n ->].
  rewrite <- firstn_map. apply NoDup_firstn.
  apply (Permutation_NoDup
           (Permutation_map Result.id
              (Permutation_sym (Array_sort_perm by_final_score _)))).
  rewrite map_map. cbn [to_result Result.id].
  clear - H. induction cands as [|c cands IH]; simpl; [constructor|].
  inversion H as [|? ? Hc Hnd]; subst.
  destruct (has_colbert c); simpl; auto.
  constructor; auto. intros Hin. apply Hc.
  apply in_map_iff in Hin. destruct Hin as (c' & E & Hc').
  apply filter_In in Hc'. rewrite <- E. apply in_map. tauto.
Qed.

Lemma results_ids_distinct_witness :
  NoDup (map Result.id (results sample_query_vectors [point_A; point_B] lit_3)).
Proof.
  apply results_ids_distinct.
  repeat constructor; cbn; intuition discriminate.
Defined.

(** X7. The counts of the returned item: [num_candidates] counts every
    point of the index response, dropped or not; [num_results] is the number
    of candidates with stored vectors, cut as [slice(0, topK)] cuts a list
    of that length (from the end for a negative [topK]); and [num_results]
    never exceeds [num_candidates]. *)
Theorem result_counts (env : backends) (i : Input.t) (tr : list event) (out : Output.t) :
  run env (main i) = (tr, Returned out) ->
  exists d b c sd,
    resolves env i d b c sd /\
    Output.num_candidates out = length (candidates sd) /\
    Output.num_results out
    = length (Array_slice0 (filter has_colbert (candidates sd)) (topK i)) /\
    Output.num_results out <= Output.num_candidates out.
Proof.
  intros H. apply run_main_returned in H.
  destruct H as (d & b & c & sd & Hr & -> & ->).
  exists d, b, c, sd. split; [exact Hr|]. split; [reflexivity|].
  cbn [output_of Output.num_results Output.num_candidates]. unfold results.
  assert (E : length (Array_sort by_final_score
                        (map (to_result (embedding c)) (filter has_colbert (candidates sd))))
              = length (filter has_colbert (candidates sd))).
  { now rewrite (Permutation_length (Array_sort_perm by_final_score _)), length_map. }
  rewrite (Array_slice0_length_eq _ _ (topK i) E). split; [reflexivity|].
  pose proof (filter_length_le has_colbert (candidates sd)) as Hle.
  destruct (Array_slice0_firstn (filter has_colbert (candidates sd)) (topK i)) as [n ->].
  rewrite length_firstn. lia.
Qed.

Lemma result_counts_witness :
  exists tr out,
    run (sample_backends sample_query_vectors
           (with_points [point_A; point_absent; point_B]))
        (main (sample_input "q" (Some one))) = (tr, Returned out) /\
    Output.num_results out <= Output.num_candidates out.
Proof.
  assert (H : run (sample_backends sample_query_vectors
                     (with_points [point_A; point_absent; point_B]))
                  (main (sample_input "q" (Some one)))
              = (full_trace (sample_input "q" (Some one))
                   {| embedding := [one] |}
                   {| embedding := {| indices := [1%Z]; values := [one] |} |},
                 Returned (output_of (sample_input "q" (Some one))
                             {| embedding := sample_query_vectors |}
                             (with_points [point_A; point_absent; point_B])))).
  { apply run_main_resolved. repeat split; reflexivity. }
  destruct (result_counts _ _ _ _ H) as (d & b & c & sd & _ & _ & _ & Hle).
  do 2 eexists. split; [exact H|exact Hle].
Defined.

(** X8. A failed embedding stops the search: when one of the three
    embedding requests is rejected the node throws, and no request has been
    sent to the index. *)
Theorem embedding_failure_stops_search (env : backends) (i : Input.t) :
  env _ (ollama_embeddings "nomic-embed-text" (Input.query i)) = None \/
  env _ (bm25_embed (Input.query i)) = None \/
  env _ (colbert_embed (Input.query i)) = None ->
  snd (run env (main i)) = Thrown RequestError /\
  Forall (fun e => index_limits e = None) (fst (run env (main i))).
Proof.
  intros H. unfold main. cbn [run].
  destruct (env _ (ollama_embeddings _ _)) as [d|] eqn:H1; [|split; repeat constructor].
  cbn [run].
  destruct (env _ (bm25_embed _)) as [b|] eqn:H2; [|split; repeat constructor].
  cbn [run].
  destruct (env _ (colbert_embed _)) as [c|] eqn:H3; [|split; repeat constructor].
  destruct H as [H|[H|H]]; discriminate.
Qed.

(** ** Properties of the index-building nodes *)

Lemma exec_and_then {A B : Type} (env : Nodes.services) (p : Nodes.script A)
  (f : A -> Nodes.script B) :
  Nodes.exec env (Nodes.and_then p f) =
  match Nodes.exec env p with
  | (tr, Nodes.Ok a) => let (tr', r) := Nodes.exec env (f a) in (tr ++ tr', r)
  | (tr, Nodes.Failed e) => (tr, Nodes.Failed e)
  end.
Proof.
  induction p as [a|e|entry k IH|R c k IH]; cbn [Nodes.and_then Nodes.exec].
  - now destruct (Nodes.exec env (f a)).
  - reflexivity.
  - rewrite IH. destruct (Nodes.exec env k) as [tr [a|e]]; [|reflexivity].
    now destruct (Nodes.exec env (f a)).
  - rewrite IH. destruct (Nodes.exec env (k (env R c))) as [tr [a|e]]; [|reflexivity].
    now destruct (Nodes.exec env (f a)).
Qed.

Lemma embedding_failure_stops_search_witness :
  snd (run failing_backends (main (sample_input "q" None))) = Thrown RequestError /\
  Forall (fun e => index_limits e = None)
         (fst (run failing_backends (main (sample_input "q" None)))).
Proof.
  apply embedding_failure_stops_search. right. left. reflexivity.
Defined.

Lemma Permutation_three {A : Type} (a b c : A) (l : list A) :
  Permutation l [a; b; c] ->
  l = [a; b; c] \/ l = [a; c; b] \/ l = [b; a; c] \/
  l = [b; c; a] \/ l = [c; a; b] \/ l = [c; b; a].
Proof.
  intros H.
  destruct (Permutation_vs_cons_inv H) as (l1 & l2 & ->).
  apply Permutation_sym, Permutation_cons_app_inv in H.
  apply Permutation_length_2_inv in H.
  destruct l1 as [|x [|y [|z l1]]]; cbn in H; cbn;
    destruct H as [H|H]; try discriminate;
    try (injection H; clear H; intros); subst; cbn; auto 10.
Qed.

(** X9. An existing collection is left alone: when the check [GET
    /collections/<name>] resolves, the create node makes no other request
    and returns [created: false] with the message 'Already exists'. *)
Theorem existing_collection_untouched (env : Nodes.services) (i : Item.t) :
  env _ (Nodes.get_collection (Item.collection_name i)) <> None ->
  map method_of (requests (fst (Nodes.exec env (Nodes.createCollection i)))) = ["GET"%string] /\
  snd (Nodes.exec env (Nodes.createCollection i))
  = Nodes.Ok {| Nodes.created_collection_name := Item.collection_name i;
                Nodes.created := false;
                Nodes.message := Some "Already exists"%string |}.
Proof.
  intros H. unfold Nodes.createCollection. cbn [Nodes.exec].
  destruct (env _ (Nodes.get_collection _)) as [u|]; [|congruence].
  split; reflexivity.
Qed.

Lemma existing_collection_untouched_witness :
  map method_of
      (requests (fst (Nodes.exec (sample_services true)
                        (Nodes.createCollection sample_document))))
  = ["GET"%string].
Proof.
  refine (proj1 (existing_collection_untouched (sample_services true) sample_document _)).
  discriminate.
Defined.

(** X10. The create node reports what it did: a returned item carries the
    input's collection name, and [created: true] exactly when the check
    was rejected and the [PUT] that creates the collection resolved; the
    node fails only when both requests are rejected, with the error of the
    [PUT], both having gone to the url of the collection. *)
Theorem collection_created_iff (env : Nodes.services) (i : Item.t) :
  (forall o, snd (Nodes.exec env (Nodes.createCollection i)) = Nodes.Ok o ->
     Nodes.created_collection_name o = Item.collection_name i /\
     (Nodes.created o = true <->
      env _ (Nodes.get_collection (Item.collection_name i)) = None /\
      env _ (Nodes.put_collection (Item.collection_name i) Nodes.collectionConfig) <> None)) /\
  (forall e, snd (Nodes.exec env (Nodes.createCollection i)) = Nodes.Failed e ->
     e = RequestError /\
     env _ (Nodes.get_collection (Item.collection_name i)) = None /\
     env _ (Nodes.put_collection (Item.collection_name i) Nodes.collectionConfig) = None /\
     map url_of (requests (fst (Nodes.exec env (Nodes.createCollection i))))
     = [ (qdrantUrl ++ "/collections/" ++ Nodes.interpolate (Item.collection_name i))%string;
         (qdrantUrl ++ "/collections/" ++ Nodes.interpolate (Item.collection_name i))%string ]).
Proof.
  unfold Nodes.createCollection, Nodes.await. cbn [Nodes.exec].
  destruct (env _ (Nodes.get_collection _)) as [u|] eqn:G; cbn [Nodes.exec].
  - split.
    + intros o E. injection E as <-. cbn. split; [reflexivity|].
      split; [discriminate|]. intros [H _]. discriminate.
    + intros e E. discriminate.
  - destruct (env _ (Nodes.put_collection _ _)) as [v|] eqn:P; cbn [Nodes.exec].
    + split.
      * intros o E. injection E as <-. cbn. split; [reflexivity|].
        split; auto. intros _. split; [reflexivity|discriminate].
      * intros e E. discriminate.
    + split.
      * intros o E. discriminate.
      * intros e E. injection E as <-. auto.
Qed.

Lemma collection_created_iff_witness :
  sample_services false _ (Nodes.get_collection None) = None /\
  sample_services false _ (Nodes.put_collection None Nodes.collectionConfig) <> None.
Proof.
  refine (proj1 (proj2 (proj1 (collection_created_iff (sample_services false) sample_document)
                          {| Nodes.created_collection_name := None;
                             Nodes.created := true;
                             Nodes.message := None |} eq_refl)) eq_refl).
Defined.

(** X11. The three generators commute: run one after another in any
    order, their backends answering, they return the input item with the
    three embeddings and their sizes filled in ([dense_dimensions],
    [bm25_nnz], [colbert_num_vectors]) and everything else unchanged. *)
Theorem generators_any_order (env : Nodes.services) (i : Item.t)
  (d : embedded (list number)) (b : embedded sparse) (c : embedded (list vector)) :
  env _ (Nodes.ollama_embeddings "nomic-embed-text" (Item.text i)) = Some d ->
  env _ (Nodes.bm25_single (Item.text i)) = Some b ->
  env _ (Nodes.colbert_single (Item.text i)) = Some c ->
  forall order,
    Permutation order [Nodes.generateDense; Nodes.generateBm25; Nodes.generateColbert] ->
    snd (Nodes.exec env (chain order i))
    = Nodes.Ok (filled i (embedding d) (embedding b) (embedding c)).
Proof.
  intros Hd Hb Hc order Hp.
  assert (Cases : order = [Nodes.generateDense; Nodes.generateBm25; Nodes.generateColbert] \/
                  order = [Nodes.generateDense; Nodes.generateColbert; Nodes.generateBm25] \/
                  order = [Nodes.generateBm25; Nodes.generateDense; Nodes.generateColbert] \/
                  order = [Nodes.generateBm25; Nodes.generateColbert; Nodes.generateDense] \/
                  order = [Nodes.generateColbert; Nodes.generateDense; Nodes.generateBm25] \/
                  order = [Nodes.generateColbert; Nodes.generateBm25; Nodes.generateDense]).
  { apply Permutation_three in Hp. tauto. }
  destruct Cases as [->|[->|[->|[->|[->| ->]]]]];
    cbn [chain Nodes.and_then Nodes.generateDense Nodes.generateBm25 Nodes.generateColbert
         Nodes.await Nodes.exec Item.text];
    rewrite ?Hd, ?Hb, ?Hc;
    cbn [chain Nodes.and_then Nodes.generateDense Nodes.generateBm25 Nodes.generateColbert
         Nodes.await Nodes.exec Item.text];
    rewrite ?Hd, ?Hb, ?Hc;
    cbn [chain Nodes.and_then Nodes.generateDense Nodes.generateBm25 Nodes.generateColbert
         Nodes.await Nodes.exec Item.text];
    rewrite ?Hd, ?Hb, ?Hc; reflexivity.
Qed.

Lemma generators_any_order_witness :
  snd (Nodes.exec (sample_services true)
         (chain [Nodes.generateColbert; Nodes.generateDense; Nodes.generateBm25]
                sample_document))
  = Nodes.Ok (filled sample_document [one; zero]
                {| indices := [7%Z]; values := [one] |} [[one; zero]]).
Proof.
  refine (generators_any_order (sample_services true) sample_document
            {| embedding := [one; zero] |}
            {| embedding := {| indices := [7%Z]; values := [one] |} |}
            {| embedding := [[one; zero]] |} _ _ _
            [Nodes.generateColbert; Nodes.generateDense; Nodes.generateBm25] _);
    try reflexivity.
  apply (Permutation_cons_append [Nodes.generateDense; Nodes.generateBm25]
                                 Nodes.generateColbert).
Defined.

Lemma present_Some (s : option string) :
  present s = true -> exists v, s = Some v /\ String.eqb v "" = false.
Proof.
  destruct s as [v|]; [|discriminate]. cbn. intros H.
  exists v. split; auto. now destruct (String.eqb v "").
Qed.

Lemma exec_insert_missing (env : Nodes.services) (now : string) (i : Item.t) :
  present (Item.id i) = false \/ present (Item.text i) = false ->
  Nodes.exec env (Nodes.insertDocument now i)
  = ([], Nodes.Failed (Error "Missing required fields: id and text")).
Proof.
  unfold Nodes.insertDocument, present.
  destruct (Item.id i) as [id|], (Item.text i) as [text|]; try reflexivity.
  destruct (String.eqb id ""), (String.eqb text ""); cbn; try reflexivity.
  intros [H|H]; discriminate.
Qed.

(** X12. The insert node validates before it does anything: an item whose
    [id] or [text] is absent or empty is rejected with the error 'Missing
    required fields: id and text', nothing having been logged or sent. *)
Theorem insert_rejects_missing_fields (env : Nodes.services) (now : string) (i : Item.t) :
  present (Item.id i) = false \/ present (Item.text i) = false ->
  Nodes.exec env (Nodes.insertDocument now i)
  = ([], Nodes.Failed (Error "Missing required fields: id and text")).
Proof. apply exec_insert_missing. Qed.

Lemma insert_rejects_missing_fields_witness :
  Nodes.exec (sample_services true)
             (Nodes.insertDocument sample_now (sample_item None (Some "hello"%string)))
  = ([], Nodes.Failed (Error "Missing required fields: id and text")).
Proof.
  apply (insert_rejects_missing_fields (sample_services true) sample_now
           (sample_item None (Some "hello"%string))).
  left. reflexivity.
Defined.

(** X13. The sparse embedding is required although it is not validated:
    an item with [id] and [text] but no [bm25_embedding] makes the insert
    node fail with a TypeError while it builds the point, before anything
    is logged or sent. *)
Theorem insert_requires_bm25 (env : Nodes.services) (now : string) (i : Item.t) :
  present (Item.id i) = true -> present (Item.text i) = true ->
  Item.bm25_embedding i = None ->
  Nodes.exec env (Nodes.insertDocument now i) = ([], Nodes.Failed TypeError).
Proof.
  intros Hid Htext Hb.
  apply present_Some in Hid, Htext.
  destruct Hid as (id & Eid & Nid), Htext as (text & Et & Nt).
  unfold Nodes.insertDocument. now rewrite Eid, Et, Nid, Nt, Hb.
Qed.

Lemma insert_requires_bm25_witness :
  Nodes.exec (sample_services true) (Nodes.insertDocument sample_now sample_document)
  = ([], Nodes.Failed TypeError).
Proof.
  apply (insert_requires_bm25 (sample_services true) sample_now sample_document);
    reflexivity.
Defined.

Lemma exec_insert (env : Nodes.services) (now : string) (i : Item.t)
  (id text : string) (bm25 : sparse) :
  Item.id i = Some id -> String.eqb id "" = false ->
  Item.text i = Some text -> String.eqb text "" = false ->
  Item.bm25_embedding i = Some bm25 ->
  Nodes.exec env (Nodes.insertDocument now i)
  = match env _ (Nodes.put_points (target_collection i) [point_of now i id text bm25]) with
    | Some r =>
        ([ Nodes.Printed (Nodes.sending_json [point_of now i id text bm25]);
           Nodes.Issued (Nodes.Op (Nodes.put_points (target_collection i)
                                     [point_of now i id text bm25]));
           Nodes.Settled true ],
         Nodes.Ok {| Nodes.inserted_id := id;
                     Nodes.inserted_collection_name := target_collection i;
                     Nodes.inserted := true;
                     Nodes.result := r |})
    | None =>
        ([ Nodes.Printed (Nodes.sending_json [point_of now i id text bm25]);
           Nodes.Issued (Nodes.Op (Nodes.put_points (target_collection i)
                                     [point_of now i id text bm25]));
           Nodes.Settled false;
           Nodes.Printed Nodes.error_response ],
         Nodes.Failed RequestError)
    end.
Proof.
  intros Eid Nid Et Nt Eb. unfold Nodes.insertDocument.
  rewrite Eid, Et, Nid, Nt, Eb. cbn [orb Nodes.exec].
  fold (target_collection i). fold (point_of now i id text bm25).
  destruct (env _ (Nodes.put_points _ _)); reflexivity.
Qed.



Lemma exec_generators (env : Nodes.services) (i : Item.t)
  (d : embedded (list number)) (b : embedded sparse) (c : embedded (list vector)) :
  env _ (Nodes.ollama_embeddings "nomic-embed-text" (Item.text i)) = Some d ->
  env _ (Nodes.bm25_single (Item.text i)) = Some b ->
  env _ (Nodes.colbert_single (Item.text i)) = Some c ->
  Nodes.exec env
    (Nodes.and_then (Nodes.and_then (Nodes.generateDense i) Nodes.generateBm25)
                    Nodes.generateColbert)
  = ([ Nodes.Issued (Nodes.Op (Nodes.ollama_embeddings "nomic-embed-text" (Item.text i)));
       Nodes.Settled true;
       Nodes.Issued (Nodes.Op (Nodes.bm25_single (Item.text i))); Nodes.Settled true;
       Nodes.Issued (Nodes.Op (Nodes.colbert_single (Item.text i))); Nodes.Settled true ],
     Nodes.Ok (filled i (embedding d) (embedding b) (embedding c))).
Proof.
  intros Hd Hb Hc.
  cbn [Nodes.and_then Nodes.generateDense Nodes.generateBm25 Nodes.generateColbert
       Nodes.await Nodes.exec Item.text].
  rewrite Hd.
  cbn [Nodes.and_then Nodes.generateDense Nodes.generateBm25 Nodes.generateColbert
       Nodes.await Nodes.exec Item.text].
  rewrite Hb.
  cbn [Nodes.and_then Nodes.generateDense Nodes.generateBm25 Nodes.generateColbert
       Nodes.await Nodes.exec Item.text].
  rewrite Hc. reflexivity.
Qed.

(** X15. The document pipeline (the three generators, then the insert)
    stores what the backends returned: for an item with [id] and [text] it
    makes the three embedding requests for the text and one insert, and the
    point written has the dense embedding under [dense], the sparse one
    under [bm25] and the token vectors in its payload. *)
Theorem ingest_stores_backend_embeddings (env : Nodes.services) (now : string) (i : Item.t)
  (d : embedded (list number)) (b : embedded sparse) (c : embedded (list vector)) :
  present (Item.id i) = true -> present (Item.text i) = true ->
  env _ (Nodes.ollama_embeddings "nomic-embed-text" (Item.text i)) = Some d ->
  env _ (Nodes.bm25_single (Item.text i)) = Some b ->
  env _ (Nodes.colbert_single (Item.text i)) = Some c ->
  exists p,
    requests (fst (Nodes.exec env (Nodes.ingest now i)))
    = [ Nodes.Op (Nodes.ollama_embeddings "nomic-embed-text" (Item.text i));
        Nodes.Op (Nodes.bm25_single (Item.text i));
        Nodes.Op (Nodes.colbert_single (Item.text i));
        Nodes.Op (Nodes.put_points (target_collection i) [p]) ] /\
    Item.id i = Some (Stored.id p) /\
    Item.text i = Some (Stored.text (Stored.payload p)) /\
    Stored.vector p
    = [ ("dense"%string, Stored.dense_value (Some (embedding d)));
        ("bm25"%string, Stored.sparse_value (embedding b)) ] /\
    Stored.colbert_embedding (Stored.payload p) = Some (embedding c).
Proof.
  intros Hid Htext Hd Hb Hc.
  apply present_Some in Hid, Htext.
  destruct Hid as (id & Eid & Nid), Htext as (text & Et & Nt).
  set (i' := filled i (embedding d) (embedding b) (embedding c)).
  exists (point_of now i' id text (embedding b)).
  unfold Nodes.ingest. rewrite exec_and_then, (exec_generators env i d b c Hd Hb Hc).
  fold i'.
  rewrite (exec_insert env now i' id text (embedding b) Eid Nid Et Nt eq_refl).
  change (target_collection i') with (target_collection i).
  split; [destruct (env _ (Nodes.put_points _ _)); reflexivity|].
  split; [assumption|]. split; [assumption|]. split; [|reflexivity].
  cbn. now destruct (embedding b).
Qed.

Lemma ingest_stores_backend_embeddings_witness :
  exists p,
    Stored.vector p
    = [ ("dense"%string, Stored.dense_value (Some [one; zero]));
        ("bm25"%string, Stored.sparse_value {| indices := [7%Z]; values := [one] |}) ] /\
    Stored.colbert_embedding (Stored.payload p) = Some [[one; zero]].
Proof.
  destruct (ingest_stores_backend_embeddings (sample_services true) sample_now sample_document
              {| embedding := [one; zero] |}
              {| embedding := {| indices := [7%Z]; values := [one] |} |}
              {| embedding := [[one; zero]] |})
    as (p & _ & _ & _ & Hv & Hc); try reflexivity.
  exists p. split; [exact Hv|exact Hc].
Defined.

(** X16. The document pipeline validates last: for an item without [id]
    (or [text]) the three embedding requests are still made, and only then
    does the insert node reject the item; nothing is written. *)
Theorem ingest_validates_last (env : Nodes.services) (now : string) (i : Item.t)
  (d : embedded (list number)) (b : embedded sparse) (c : embedded (list vector)) :
  present (Item.id i) = false \/ present (Item.text i) = false ->
  env _ (Nodes.ollama_embeddings "nomic-embed-text" (Item.text i)) = Some d ->
  env _ (Nodes.bm25_single (Item.text i)) = Some b ->
  env _ (Nodes.colbert_single (Item.text i)) = Some c ->
  requests (fst (Nodes.exec env (Nodes.ingest now i)))
  = [ Nodes.Op (Nodes.ollama_embeddings "nomic-embed-text" (Item.text i));
      Nodes.Op (Nodes.bm25_single (Item.text i));
      Nodes.Op (Nodes.colbert_single (Item.text i)) ] /\
  snd (Nodes.exec env (Nodes.ingest now i))
  = Nodes.Failed (Error "Missing required fields: id and text").
Proof.
  intros Hmiss Hd Hb Hc.
  unfold Nodes.ingest. rewrite exec_and_then, (exec_generators env i d b c Hd Hb Hc).
  rewrite exec_insert_missing by exact Hmiss.
  split; reflexivity.
Qed.

Lemma ingest_validates_last_witness :
  snd (Nodes.exec (sample_services true)
         (Nodes.ingest sample_now (sample_item None (Some "hello"%string))))
  = Nodes.Failed (Error "Missing required fields: id and text").
Proof.
  refine (proj2 (ingest_validates_last (sample_services true) sample_now
                   (sample_item None (Some "hello"%string))
                   {| embedding := [one; zero] |}
                   {| embedding := {| indices := [7%Z]; values := [one] |} |}
                   {| embedding := [[one; zero]] |} _ _ _ _)); try reflexivity.
  left. reflexivity.
Defined.

(** X17. What the insert node stores decides what the search node keeps:
    a point written by the insert node, handed back by the index as a
    candidate, passes the filter of the search node exactly when the item
    had token vectors; the result made from it has the item's [id] and
    [text], and its late-interaction score is computed from the item's
    vectors. *)
Theorem stored_vectors_decide_reranking (env : Nodes.services) (now : string) (i : Item.t)
  (p : Stored.point) (coll : string) (score : number) (Q : list vector) :
  In (Nodes.Op (Nodes.put_points coll [p]))
     (requests (fst (Nodes.exec env (Nodes.insertDocument now i)))) ->
  (has_colbert (as_candidate p score) = true <-> Item.colbert_embedding i <> None) /\
  Item.id i = Some (Result.id (to_result Q (as_candidate p score))) /\
  Result.text (to_result Q (as_candidate p score)) = Item.text i /\
  (forall v, Item.colbert_embedding i = Some v ->
     Result.colbert_score (to_result Q (as_candidate p score)) = colbertScore Q v).
Proof.
  unfold Nodes.insertDocument.
  destruct (Item.id i) as [id|] eqn:Eid; [|cbn; tauto].
  destruct (Item.text i) as [text|] eqn:Et; [|cbn; tauto].
  destruct (String.eqb id "" || String.eqb text ""); [cbn; tauto|].
  destruct (Item.bm25_embedding i) as [bm25|]; [|cbn; tauto].
  cbn [Nodes.exec].
  destruct (env _ (Nodes.put_points _ _)); cbn [Nodes.exec fst requests In];
    (intros [H|[]]; injection H as _ <-;
     cbn [as_candidate has_colbert to_result stored_colbert stored_text
          Point.payload Point.colbert_embedding Point.text Point.id
          Stored.payload Stored.colbert_embedding Stored.text Stored.id
          Result.id Result.text Result.colbert_score];
     split; [destruct (Item.colbert_embedding i); split; congruence|];
     split; [reflexivity|]; split; [reflexivity|];
     intros v ->; reflexivity).
Qed.

Lemma stored_vectors_decide_reranking_witness :
  has_colbert (as_candidate sample_point_bm25 one) = true <->
  Item.colbert_embedding sample_item_bm25 <> None.
Proof.
  refine (proj1 (stored_vectors_decide_reranking (sample_services true) sample_now
                   sample_item_bm25 sample_point_bm25 "hybrid_search_collection" one
                   sample_query_vectors _)).
  left. reflexivity.
Defined.

(** X18. The nodes agree on the names of the vectors: the point the insert
    node writes names its vectors [dense] and [bm25], the names the create
    node configures (dense, then sparse) and the names the two prefetches
    of the search node search under, in that order. *)
Theorem vector_names_agree (env : Nodes.services) (now : string) (i : Item.t)
  (p : Stored.point) (coll : string)
  (queryDense : list number) (queryBm25 : sparse) (k : number) :
  In (Nodes.Op (Nodes.put_points coll [p]))
     (requests (fst (Nodes.exec env (Nodes.insertDocument now i)))) ->
  map fst (Stored.vector p)
  = map fst (Nodes.vectors Nodes.collectionConfig) ++ Nodes.sparse_vectors Nodes.collectionConfig /\
  map fst (Stored.vector p) = map using_ (prefetch (searchBody queryDense queryBm25 k)).
Proof.
  unfold Nodes.insertDocument.
  destruct (Item.id i) as [id|]; [|cbn; tauto].
  destruct (Item.text i) as [text|]; [|cbn; tauto].
  destruct (String.eqb id "" || String.eqb text ""); [cbn; tauto|].
  destruct (Item.bm25_embedding i) as [bm25|]; [|cbn; tauto].
  cbn [Nodes.exec].
  destruct (env _ (Nodes.put_points _ _)); cbn [Nodes.exec fst requests In];
    (intros [H|[]]; injection H as _ <-; split; reflexivity).
Qed.

Lemma vector_names_agree_witness :
  map fst (Stored.vector sample_point_bm25)
  = map using_ (prefetch (searchBody [one] {| indices := [1%Z]; values := [one] |} lit_3)).
Proof.
  refine (proj2 (vector_names_agree (sample_services true) sample_now
                   sample_item_bm25 sample_point_bm25 "hybrid_search_collection"
                   [one] {| indices := [1%Z]; values := [one] |} lit_3 _)).
  left. reflexivity.
Defined.



